(** * needs.hpp: a type-keyed dependency container and its value wrappers

    A shallow embedding of [include/needs.hpp].  The C++ objects live in an
    explicit memory ([state]); every member function is a computation in a
    small state-and-exception monad, so that a [throw] keeps the memory it
    was raised in. *)

From stdpp Require Import base option list gmap strings.

Open Scope string_scope.

(** ** Exceptions and outcomes *)

(** The two standard exception classes the header throws, with [what()]. *)
Inductive exception :=
| invalid_argument (what : string)
| runtime_error (what : string).

(** What a call does: it returns, it throws, or it steps outside the
    language (a dangling pointer is dereferenced or deleted). *)
Inductive outcome (A : Type) :=
| returned (a : A)
| thrown (e : exception)
| undefined.
Arguments returned {A} a.
Arguments thrown {A} e.
Arguments undefined {A}.

(** ** Pointers *)

(** [size_t], the key type of the map. *)
Definition size_t := N.

(** What a non-null [T*] designates: a complete object (a caller's variable
    or a [new]-allocated one), or the member [value] of the [value_wrapper]
    allocated at [w]. A reference [T&] is a [place]. *)
Inductive place :=
| object (a : positive)
| member_value (w : positive).

Definition pointer := option place.
Definition nullptr : pointer := None.

(** [std::unique_ptr<T>] and [std::shared_ptr<T>]: the object owned, or
    nothing. Their [get()] is [raw]. *)
Definition unique_ptr := option positive.
Definition shared_ptr := option positive.
Definition raw (p : option positive) : pointer := object <$> p.

Global Instance place_eq_dec : EqDecision place.
Proof. solve_decision. Defined.

Section Needs.

(** [ctype] names the types a template can be instantiated with, [impl] is
    the type of the concrete values stored. [type_id<T>()] is the address
    of the function [type<T>::uid], fixed by the linker: it is a parameter
    here. *)
Context {ctype : Type} {impl : Type}.
Variable type_id : ctype → size_t.

(** ** The value wrapper hierarchy *)

(** The four classes derived from [tbase_wrapper<T>], with their field. *)
Inductive wrapper :=
| value_wrapper (value : impl)
| ptr_wrapper (ptr : pointer)
| uptr_wrapper (uptr : unique_ptr)
| sptr_wrapper (sptr : shared_ptr).

(** The ownership discipline a wrapper class encodes. *)
Inductive ownership := Inline | Borrowed | Exclusive | Shared.

Definition variant (w : wrapper) : ownership :=
  match w with
  | value_wrapper _ => Inline
  | ptr_wrapper _ => Borrowed
  | uptr_wrapper _ => Exclusive
  | sptr_wrapper _ => Shared
  end.

(** [value_wrapper(X v) { value = std::move(v); }] *)
Definition value_wrapper_ctor (v : impl) : exception + wrapper :=
  inr (value_wrapper v).

(** [ptr_wrapper(T& v) { ptr = &v; }] *)
Definition ptr_wrapper_ctor_ref (v : place) : exception + wrapper :=
  inr (ptr_wrapper (Some v)).

(** [ptr_wrapper(T* v)] *)
Definition ptr_wrapper_ctor (v : pointer) : exception + wrapper :=
  if decide (v ≠ nullptr) then inr (ptr_wrapper v)
  else inl (invalid_argument "Null raw pointer!").

(** [uptr_wrapper(std::unique_ptr<T> v)] *)
Definition uptr_wrapper_ctor (v : unique_ptr) : exception + wrapper :=
  if decide (is_Some v) then inr (uptr_wrapper v)
  else inl (invalid_argument "Null unique pointer!").

(** [sptr_wrapper(std::shared_ptr<T> v)] *)
Definition sptr_wrapper_ctor (v : shared_ptr) : exception + wrapper :=
  if decide (is_Some v) then inr (sptr_wrapper v)
  else inl (invalid_argument "Null shared pointer!").

(** The virtual [T* get()] of the wrapper allocated at [this]. *)
Definition wrapper_get (this : positive) (w : wrapper) : pointer :=
  match w with
  | value_wrapper _ => Some (member_value this)   (* &value *)
  | ptr_wrapper ptr => ptr
  | uptr_wrapper uptr => raw uptr                  (* uptr.get() *)
  | sptr_wrapper sptr => raw sptr                  (* sptr.get() *)
  end.

(** [void* getRaw() override { return (void* )get(); }] *)
Definition getRaw (this : positive) (w : wrapper) : pointer :=
  wrapper_get this w.

(** ** Memory *)

(** [objs]: the live complete objects; [use_count]: the control blocks of
    the objects managed by [shared_ptr]s; [wrappers]: the live
    [new]-allocated wrappers; [destroyed]: the values whose destructor ran,
    oldest first; [values]: the container's map, [None] being a null
    [unique_ptr<base_wrapper>]. *)
Record state := State {
  objs : gmap positive impl;
  use_count : gmap positive nat;
  wrappers : gmap positive wrapper;
  destroyed : list impl;
  values : gmap size_t (option positive);
}.

Definition with_objs (f : gmap positive impl → gmap positive impl) (s : state) :=
  State (f (objs s)) (use_count s) (wrappers s) (destroyed s) (values s).
Definition with_use_count (f : gmap positive nat → gmap positive nat) (s : state) :=
  State (objs s) (f (use_count s)) (wrappers s) (destroyed s) (values s).
Definition with_wrappers (f : gmap positive wrapper → gmap positive wrapper) (s : state) :=
  State (objs s) (use_count s) (f (wrappers s)) (destroyed s) (values s).
Definition with_destroyed (f : list impl → list impl) (s : state) :=
  State (objs s) (use_count s) (wrappers s) (f (destroyed s)) (values s).
Definition with_values
    (f : gmap size_t (option positive) → gmap size_t (option positive)) (s : state) :=
  State (objs s) (use_count s) (wrappers s) (destroyed s) (f (values s)).

(** What [*p] reads. *)
Definition deref (s : state) (p : pointer) : option impl :=
  match p with
  | None => None
  | Some (object a) => objs s !! a
  | Some (member_value w) =>
      match wrappers s !! w with
      | Some (value_wrapper v) => Some v
      | _ => None
      end
  end.

(** ** The monad *)

Definition M (A : Type) : Type := state → outcome A * state.

Definition ret {A} (a : A) : M A := λ s, (returned a, s).
Definition throw {A} (e : exception) : M A := λ s, (thrown e, s).
Definition undef {A} : M A := λ s, (undefined, s).
Definition bind {A B} (m : M A) (k : A → M B) : M B :=
  λ s, match m s with
       | (returned a, s') => k a s'
       | (thrown e, s') => (thrown e, s')
       | (undefined, s') => (undefined, s')
       end.
Definition gets {A} (f : state → A) : M A := λ s, (returned (f s), s).
Definition modify (f : state → state) : M unit := λ s, (returned (), f s).

(** Stack unwinding: when [m] throws, [cleanup] (the destructors of the
    locals) runs and the exception goes on. *)
Definition unwinding {A} (cleanup : M unit) (m : M A) : M A :=
  λ s, match m s with
       | (thrown e, s') =>
           match cleanup s' with
           | (undefined, s'') => (undefined, s'')
           | (_, s'') => (thrown e, s'')
           end
       | r => r
       end.

(** The monad operations under stdpp's [x ← m; k] and [m;; k]. *)
Global Instance M_ret : MRet M := @ret.
Global Instance M_bind : MBind M := λ A B k m, bind m k.

(** ** Allocation and destruction *)

(** [new W(args)]: the constructor runs first; when it throws, nothing stays
    allocated. The address is one no live wrapper has. *)
Definition new (c : exception + wrapper) : M positive :=
  match c with
  | inl e => throw e
  | inr w => λ s, let this := fresh (dom (wrappers s)) in
                  (returned this, with_wrappers <[this := w]> s)
  end.

(** [*this] for a [base_wrapper*]. *)
Definition load (this : positive) : M wrapper :=
  λ s, match wrappers s !! this with
       | Some w => (returned w, s)
       | None => (undefined, s)
       end.

(** [delete a] on a complete object: its destructor runs, its storage goes. *)
Definition delete_object (a : positive) : M unit :=
  λ s, match objs s !! a with
       | Some v => (returned (), with_destroyed (λ l, (l ++ [v])%list) (with_objs (delete a) s))
       | None => (undefined, s)
       end.

(** [~unique_ptr<T>()] *)
Definition unique_ptr_dtor (p : unique_ptr) : M unit :=
  match p with
  | Some a => delete_object a
  | None => ret ()
  end.

(** [~shared_ptr<T>()]: the last owner deletes the object. *)
Definition shared_ptr_dtor (p : shared_ptr) : M unit :=
  match p with
  | None => ret ()
  | Some a =>
      c ← gets (λ s, use_count s !! a);
      match c with
      | Some 1 => modify (with_use_count (delete a));; delete_object a
      | Some (S (S n)) => modify (with_use_count <[a := S n]>)
      | _ => undef
      end
  end.

(** [shared_ptr<T>(unique_ptr<T>&&)], the conversion the argument of
    [sptr_wrapper]'s constructor goes through in [set(std::unique_ptr<T>)]:
    a control block with one owner is made for the object. *)
Definition shared_from_unique (v : unique_ptr) : M shared_ptr :=
  match v with
  | Some a => modify (with_use_count <[a := 1]>);; ret (Some a)
  | None => ret None
  end.

(** The (implicit) destructor of each wrapper class: its field is destroyed. *)
Definition wrapper_dtor (w : wrapper) : M unit :=
  match w with
  | value_wrapper value => modify (with_destroyed (λ l, (l ++ [value])%list))
  | ptr_wrapper _ => ret ()
  | uptr_wrapper uptr => unique_ptr_dtor uptr
  | sptr_wrapper sptr => shared_ptr_dtor sptr
  end.

(** [delete this] through [base_wrapper]'s virtual destructor. *)
Definition delete_wrapper (this : positive) : M unit :=
  w ← load this;
  wrapper_dtor w;;
  modify (with_wrappers (delete this)).

(** ** [std::map<size_t, std::unique_ptr<base_wrapper>>] *)

(** [values.count(key)] *)
Definition count (key : size_t) : M nat :=
  gets (λ s, match values s !! key with Some _ => 1 | None => 0 end).

(** [values[key]]: a missing key is inserted with a null pointer. *)
Definition index (key : size_t) : M (option positive) :=
  λ s, match values s !! key with
       | Some p => (returned p, s)
       | None => (returned None, with_values <[key := None]> s)
       end.

(** [values[key].reset(p)]: the slot takes [p], then the wrapper it held is
    deleted. Assigning a [unique_ptr] to the slot does the same. *)
Definition reset (key : size_t) (p : option positive) : M unit :=
  old ← index key;
  modify (with_values <[key := p]>);;
  match old with
  | Some o => delete_wrapper o
  | None => ret ()
  end.

(** ** The container [needs<Needs...>] *)

(** The loop of the constructor over [{ type_id<Needs>()... }]. *)
Fixpoint needs_ctor_loop (ids : list size_t) : M unit :=
  match ids with
  | [] => ret ()
  | t :: ids => reset t None;; needs_ctor_loop ids
  end.

(** [needs()]: the map starts empty. *)
Definition needs_ctor (Needs : list ctype) : M unit :=
  modify (with_values (λ _, ∅));;
  needs_ctor_loop (type_id <$> Needs).

Definition verify_type (T : ctype) : M size_t :=
  let key := type_id T in
  c ← count key;
  if decide (c ≠ 0) then ret key
  else throw (invalid_argument "Type specified is not a need!").

Definition get (X : ctype) : M pointer :=
  key ← verify_type X;
  ptr ← index key;
  match ptr with
  | Some this => w ← load this; ret (getRaw this w)
  | None => throw (runtime_error "Need type never set!")
  end.

(** [template <typename T, typename X=T> void set(X v)]. In
    [values[key].reset(new W(...))] the key is the one [verify_type] found
    in the map, so [values[key]] inserts nothing and may be read before or
    after the wrapper is allocated. The parameter itself is not an object
    of the memory. *)
Definition set_value (T : ctype) (v : impl) : M unit :=
  key ← verify_type T;
  w ← new (value_wrapper_ctor v);
  reset key (Some w).

(** [template <typename T, typename X=T> void set(X* v)] *)
Definition set_ptr_X (T : ctype) (v : pointer) : M unit :=
  key ← verify_type T;
  w ← new (ptr_wrapper_ctor v);
  reset key (Some w).

(** [template <typename T> void set(T& v)] *)
Definition set_ref (T : ctype) (v : place) : M unit :=
  key ← verify_type T;
  w ← new (ptr_wrapper_ctor_ref v);
  reset key (Some w).

(** [template <typename T> void set(T* v)] *)
Definition set_ptr (T : ctype) (v : pointer) : M unit :=
  key ← verify_type T;
  w ← new (ptr_wrapper_ctor v);
  reset key (Some w).

(** [template <typename T> void set(std::unique_ptr<T> v)]. The parameter
    is a local: when the body throws before [v] is moved from, unwinding
    destroys it and what it owns. *)
Definition set_uptr (T : ctype) (v : unique_ptr) : M unit :=
  unwinding (unique_ptr_dtor v)
    (key ← verify_type T;
     sp ← shared_from_unique v;
     w ← new (sptr_wrapper_ctor sp);
     reset key (Some w)).

(** How the caller passes the value selects the overload. There is no
    overload taking a [std::shared_ptr]. *)
Inductive argument :=
| by_value (v : impl)
| by_pointer_X (v : pointer)
| by_reference (v : place)
| by_pointer (v : pointer)
| by_unique_ptr (v : unique_ptr).

Definition set (T : ctype) (arg : argument) : M unit :=
  match arg with
  | by_value v => set_value T v
  | by_pointer_X v => set_ptr_X T v
  | by_reference v => set_ref T v
  | by_pointer v => set_ptr T v
  | by_unique_ptr v => set_uptr T v
  end.

End Needs.

Arguments wrapper : clear implicits.
Arguments state : clear implicits.
Arguments argument : clear implicits.
Arguments M : clear implicits.

(** ** Well-formedness conditions *)

Section Conditions.

Context {impl : Type}.

(** The discipline the specification attaches to each way of passing the
    value: a bare value is owned inline, a pointer or reference is
    borrowed, an owning pointer transfers exclusive ownership. This one
    follows the specification's words; [installed] below follows the
    header. *)
Definition spec_intent (arg : argument impl) : ownership :=
  match arg with
  | by_value _ => Inline
  | by_pointer_X _ | by_reference _ | by_pointer _ => Borrowed
  | by_unique_ptr _ => Exclusive
  end.

(** The wrapper class each overload of [set] instantiates. *)
Definition installed (arg : argument impl) : wrapper impl :=
  match arg with
  | by_value v => value_wrapper v
  | by_pointer_X v => ptr_wrapper v
  | by_reference v => ptr_wrapper (Some v)
  | by_pointer v => ptr_wrapper v
  | by_unique_ptr v => sptr_wrapper v
  end.

(** A wrapper whose destructor stays inside the language: what it owns is
    alive, and a shared object has an owner to give up. *)
Definition wrapper_ok (s : state impl) (w : wrapper impl) : bool :=
  match w with
  | uptr_wrapper (Some a) => bool_decide (is_Some (objs s !! a))
  | sptr_wrapper (Some a) =>
      bool_decide (is_Some (objs s !! a)) &&
      match use_count s !! a with Some (S _) => true | _ => false end
  | _ => true
  end.

(** The slot is null, or holds a live wrapper that can be destroyed. *)
Definition slot_ok (s : state impl) (key : size_t) : bool :=
  match values s !! key with
  | Some (Some o) =>
      match wrappers s !! o with
      | Some w => wrapper_ok s w
      | None => false
      end
  | _ => true
  end.

(** A [unique_ptr] argument owns a live object or nothing. *)
Definition handle_ok (s : state impl) (arg : argument impl) : bool :=
  match arg with
  | by_unique_ptr (Some a) => bool_decide (is_Some (objs s !! a))
  | _ => true
  end.

(** A valid argument: a non-null pointer; a [unique_ptr] that owns a live
    object no [shared_ptr] manages. *)
Definition arg_ok (s : state impl) (arg : argument impl) : bool :=
  match arg with
  | by_value _ | by_reference _ => true
  | by_pointer_X v | by_pointer v => bool_decide (v ≠ nullptr)
  | by_unique_ptr (Some a) =>
      bool_decide (is_Some (objs s !! a)) && bool_decide (use_count s !! a = None)
  | by_unique_ptr None => false
  end.

(** The values whose destructor runs when [w] is destroyed in [s]. *)
Definition released (s : state impl) (w : wrapper impl) : list impl :=
  match w with
  | value_wrapper value => [value]
  | ptr_wrapper _ => []
  | uptr_wrapper (Some a) => option_list (objs s !! a)
  | sptr_wrapper (Some a) =>
      match use_count s !! a with
      | Some 1 => option_list (objs s !! a)
      | _ => []
      end
  | _ => []
  end.

(** The objects whose storage goes when [w] is destroyed in [s]. *)
Definition freed (s : state impl) (w : wrapper impl) : list positive :=
  match w with
  | uptr_wrapper (Some a) => [a]
  | sptr_wrapper (Some a) =>
      match use_count s !! a with
      | Some 1 => [a]
      | _ => []
      end
  | _ => []
  end.

(** The wrapper the slot [key] holds, when it holds a live one. *)
Definition held (s : state impl) (key : size_t) : option (wrapper impl) :=
  match values s !! key with
  | Some (Some o) => wrappers s !! o
  | _ => None
  end.

(** What every overload of [set] does once the key is known:
    [values[key].reset(new W(...))]. *)
Definition install (key : size_t) (c : exception + wrapper impl) : M impl unit :=
  w ← new c;
  reset key (Some w).

(** The constructor call of each overload. *)
Definition constructed (arg : argument impl) : exception + wrapper impl :=
  match arg with
  | by_value v => value_wrapper_ctor v
  | by_pointer_X v => ptr_wrapper_ctor v
  | by_reference v => ptr_wrapper_ctor_ref v
  | by_pointer v => ptr_wrapper_ctor v
  | by_unique_ptr v => sptr_wrapper_ctor v
  end.

(** The map the constructor builds. *)
Definition empty_slots (ids : list size_t) : gmap size_t (option positive) :=
  foldl (λ m t, <[t := None]> m) ∅ ids.

End Conditions.

(** ** The demonstration program

    The types of the sample [main]: the capabilities [IPrint] and [IDuck],
    their implementations, and the container [A : needs<IPrint, IDuck>]. *)
Module Demo.

Inductive type_name := IPrint | IDuck | PrintHello | StdoutDuck.

Global Instance type_name_eq_dec : EqDecision type_name.
Proof. solve_decision. Defined.

(** The objects of the program: a [PrintHello] with its suffix, a
    [StdoutDuck]. *)
Inductive object_value :=
| print_hello (suffix : string)
| stdout_duck.

(** One address per instantiation of [type<T>::uid]. *)
Definition type_id (T : type_name) : size_t :=
  match T with
  | IPrint => 4198704
  | IDuck => 4198720
  | PrintHello => 4198736
  | StdoutDuck => 4198752
  end%N.

Definition A_needs : list type_name := [IPrint; IDuck].

(** The memory [main] starts in: the local [ph] at address 1, and at
    address 2 an object allocated with [new], for a [std::unique_ptr]. *)
Definition main_memory : state object_value :=
  State {[ 1%positive := print_hello "World!"; 2%positive := print_hello "World!" ]}
        ∅ ∅ [] ∅.

(** [A a;] *)
Definition a_constructed : state object_value :=
  (needs_ctor type_id A_needs main_memory).2.

(** [a.set<IPrint>(PrintHello("someone"));] *)
Definition a_set_someone : state object_value :=
  (set type_id IPrint (by_value (print_hello "someone")) a_constructed).2.

(** A second container, [needs<IPrint, PrintHello>], whose [IPrint] slot
    owns the object at address 2 and whose [PrintHello] slot borrows it. *)
Definition owner_and_borrower : state object_value :=
  (set type_id PrintHello (by_pointer (Some (object 2%positive)))
     (set type_id IPrint (by_unique_ptr (Some 2%positive))
        (needs_ctor type_id [IPrint; PrintHello] main_memory).2).2).2.

End Demo.

(** ** The container's invariant *)

Section Invariant.

Context {ctype : Type} {impl : Type}.
Variable type_id : ctype → size_t.

(** Every wrapper a slot points to is allocated. *)
Definition slots_live (s : state impl) : Prop :=
  ∀ key this, values s !! key = Some (Some this) → is_Some (wrappers s !! this).

(** No wrapper is held by two slots: each [unique_ptr] owns its own. *)
Definition slots_distinct (s : state impl) : Prop :=
  ∀ k1 k2 this,
    values s !! k1 = Some (Some this) → values s !! k2 = Some (Some this) → k1 = k2.

Definition container_ok (s : state impl) : Prop :=
  slots_live s ∧ slots_distinct s.

(** The memories a container goes through: it is constructed, then [set]
    and [get] are called on it, as long as no call leaves the language. *)
Inductive reachable : state impl → Prop :=
| reach_ctor (Needs : list ctype) s :
    reachable (needs_ctor type_id Needs s).2
| reach_set T arg s :
    reachable s → (set type_id T arg s).1 ≠ undefined →
    reachable (set type_id T arg s).2
| reach_get X s :
    reachable s → reachable (get type_id X s).2.

(** [~needs()], implicit: the map is destroyed, and each [unique_ptr] in it
    deletes the wrapper it holds. *)
Definition needs_dtor : M impl unit :=
  λ s, foldr (λ slot (rest : M impl unit),
                match slot.2 with
                | Some o => delete_wrapper o
                | None => ret ()
                end;; rest)
             (modify (with_values (λ _, ∅)))
             (map_to_list (values s)) s.

End Invariant.

(** ** The sample program

    [main] and the classes it defines, over a memory and the characters
    written to [std::cout]. *)
Module Program.

Import Demo.

Record world := World {
  memory : state object_value;
  stdout : string;
}.

Definition IO (A : Type) : Type := world → outcome A * world.

Definition io_ret {A} (a : A) : IO A := λ w, (returned a, w).
Definition io_bind {A B} (m : IO A) (k : A → IO B) : IO B :=
  λ w, match m w with
       | (returned a, w') => k a w'
       | (thrown e, w') => (thrown e, w')
       | (undefined, w') => (undefined, w')
       end.

Global Instance IO_ret : MRet IO := @io_ret.
Global Instance IO_bind : MBind IO := λ A B k m, io_bind m k.

(** A member function of the header, run on the program's memory. *)
Definition lift {A} (m : M object_value A) : IO A :=
  λ w, let '(r, s) := m (memory w) in (r, World s (stdout w)).

(** [std::cout << text] *)
Definition put (text : string) : IO unit :=
  λ w, (returned (), World (memory w) (stdout w ++ text)).

(** [std::endl] writes a newline. *)
Definition endl : string := String (Ascii.ascii_of_nat 10) EmptyString.

(** A local variable: an object at an address no live object has. *)
Definition local (v : object_value) : IO positive :=
  λ w, let a := fresh (dom (objs (memory w))) in
       (returned a, World (with_objs <[a := v]> (memory w)) (stdout w)).

(** [PrintHello() { suffix = ""; }] and [PrintHello(std::string suffix)] *)
Definition PrintHello_default : object_value := print_hello "".
Definition PrintHello_ctor (suffix : string) : object_value := print_hello suffix.

(** [void PrintHello::print()] *)
Definition PrintHello_print (suffix : string) : IO unit :=
  put "Hello ";; put suffix;; put endl.

(** [void StdoutDuck::quack()] *)
Definition StdoutDuck_quack : IO unit :=
  put "Quack!";; put endl.

(** [p->print()] through an [IPrint*]: the call goes to the class of the
    object [p] points to, which has to be alive and an [IPrint]. *)
Definition IPrint_print (p : pointer) : IO unit :=
  λ w, match deref (memory w) p with
       | Some (print_hello suffix) => PrintHello_print suffix w
       | _ => (undefined, w)
       end.

(** [p->quack()] through an [IDuck*]. *)
Definition IDuck_quack (p : pointer) : IO unit :=
  λ w, match deref (memory w) p with
       | Some stdout_duck => StdoutDuck_quack w
       | _ => (undefined, w)
       end.

Section Main.

Variable type_id : type_name → size_t.

(** [void A::print() { get<IPrint>()->print(); }] *)
Definition A_print : IO unit :=
  p ← lift (get type_id IPrint);
  IPrint_print p.

(** [void A::quack() { get<IDuck>()->quack(); }] *)
Definition A_quack : IO unit :=
  p ← lift (get type_id IDuck);
  IDuck_quack p.

(** [int main(int argc, char** argv)]. At [return 0] the locals go out of
    scope, [ph] first, then [a]. *)
Definition main : IO Z :=
  lift (needs_ctor type_id A_needs);;
  lift (set type_id IPrint (by_value (PrintHello_ctor "someone")));;
  A_print;;
  lift (set type_id IPrint (by_value (PrintHello_ctor "X")));;
  A_print;;
  ph ← local (PrintHello_ctor "World!");
  lift (set type_id IPrint (by_pointer_X (Some (object ph))));;
  A_print;;
  A_quack;;
  lift (delete_object ph);;
  lift needs_dtor;;
  mret 0%Z.

End Main.

End Program.

(** ** Properties *)

Section Properties.

Context {ctype : Type} {impl : Type}.
Variable type_id : ctype → size_t.

Implicit Types (s : state impl) (T X : ctype) (w : wrapper impl)
  (arg : argument impl) (key : size_t).

Ltac unfold_monad :=
  unfold mbind, M_bind, bind, mret, M_ret, ret, gets, modify, throw, undef in *.

(** *** The map *)

Lemma count_eq key s :
  count key s = (returned (match values s !! key with Some _ => 1 | None => 0 end), s).
Proof. reflexivity. Qed.

Lemma index_present key s p :
  values s !! key = Some p → index key s = (returned p, s).
Proof. intros Hk. unfold index. by rewrite Hk. Qed.

Lemma verify_type_declared T s :
  is_Some (values s !! type_id T) →
  verify_type type_id T s = (returned (type_id T), s).
Proof.
  intros [p Hp]. unfold verify_type, count. unfold_monad.
  by rewrite Hp.
Qed.

Lemma verify_type_undeclared T s :
  values s !! type_id T = None →
  verify_type type_id T s = (thrown (invalid_argument "Type specified is not a need!"), s).
Proof.
  intros Hp. unfold verify_type, count. unfold_monad.
  by rewrite Hp.
Qed.

(** [verify_type] only reads. *)
Lemma verify_type_state T s : (verify_type type_id T s).2 = s.
Proof.
  destruct (values s !! type_id T) eqn:Hk.
  - by rewrite verify_type_declared.
  - by rewrite verify_type_undeclared.
Qed.

Lemma verify_type_cases T s :
  (is_Some (values s !! type_id T) ∧ verify_type type_id T s = (returned (type_id T), s)) ∨
  (values s !! type_id T = None ∧
   verify_type type_id T s = (thrown (invalid_argument "Type specified is not a need!"), s)).
Proof.
  destruct (values s !! type_id T) eqn:Hk.
  - left. split; [done|]. by apply verify_type_declared.
  - right. split; [done|]. by apply verify_type_undeclared.
Qed.

(** *** Destructors leave the map and the wrappers alone *)

Lemma delete_object_frame a s :
  values (delete_object a s).2 = values s ∧
  wrappers (delete_object a s).2 = wrappers s.
Proof. unfold delete_object. by destruct (objs s !! a). Qed.

Lemma unique_ptr_dtor_frame p s :
  values (unique_ptr_dtor p s).2 = values s ∧
  wrappers (unique_ptr_dtor p s).2 = wrappers s.
Proof. destruct p; [apply delete_object_frame|done]. Qed.

Lemma shared_ptr_dtor_frame p s :
  values (shared_ptr_dtor p s).2 = values s ∧
  wrappers (shared_ptr_dtor p s).2 = wrappers s.
Proof.
  destruct p as [a|]; [|done]. unfold shared_ptr_dtor. unfold_monad.
  destruct (use_count s !! a) as [[|[|n]]|]; try done.
  apply (delete_object_frame a (with_use_count (delete a) s)).
Qed.

Lemma wrapper_dtor_frame w s :
  values (wrapper_dtor w s).2 = values s ∧
  wrappers (wrapper_dtor w s).2 = wrappers s.
Proof.
  destruct w; simpl; try done.
  - apply unique_ptr_dtor_frame.
  - apply shared_ptr_dtor_frame.
Qed.

Lemma delete_wrapper_values this s :
  values (delete_wrapper this s).2 = values s.
Proof.
  unfold delete_wrapper, load. unfold_monad.
  destruct (wrappers s !! this) as [w|]; [|done].
  pose proof (wrapper_dtor_frame w s) as [Hv _].
  by destruct (wrapper_dtor w s) as [[[]| |] s'].
Qed.

(** *** Destroying a wrapper *)

Lemma delete_object_live a v s :
  objs s !! a = Some v →
  delete_object a s =
    (returned (), with_destroyed (λ l, (l ++ [v])%list) (with_objs (delete a) s)).
Proof. intros Ha. unfold delete_object. by rewrite Ha. Qed.

Lemma wrapper_dtor_returns w s :
  wrapper_ok s w = true →
  ∃ s', wrapper_dtor w s = (returned (), s') ∧
        values s' = values s ∧ wrappers s' = wrappers s ∧
        destroyed s' = (destroyed s ++ released s w)%list ∧
        objs s' = foldr delete (objs s) (freed s w).
Proof.
  intros Hok. destruct w as [v|p|[a|]|[a|]]; simpl in *;
    try (eexists; split; [reflexivity|]; simpl; by rewrite ?app_nil_r).
  - apply bool_decide_eq_true in Hok as [v Hv].
    rewrite (delete_object_live _ _ _ Hv), Hv. eexists; split; [reflexivity|done].
  - apply andb_true_iff in Hok as [Hv Hc].
    apply bool_decide_eq_true in Hv as [v Hv].
    unfold shared_ptr_dtor. unfold_monad.
    destruct (use_count s !! a) as [[|[|n]]|]; try done.
    + rewrite (delete_object_live a v); [|done].
      eexists; split; [reflexivity|]. simpl. by rewrite Hv.
    + eexists; split; [reflexivity|]. simpl. by rewrite app_nil_r.
Qed.

Lemma delete_wrapper_returns this w s :
  wrappers s !! this = Some w → wrapper_ok s w = true →
  ∃ s', delete_wrapper this s = (returned (), s') ∧
        values s' = values s ∧ wrappers s' = delete this (wrappers s) ∧
        destroyed s' = (destroyed s ++ released s w)%list ∧
        objs s' = foldr delete (objs s) (freed s w).
Proof.
  intros Hw Hok. unfold delete_wrapper, load. unfold_monad. rewrite Hw.
  destruct (wrapper_dtor_returns w s Hok) as (s' & -> & Hv & Hws & Hd & Ho).
  eexists; split; [reflexivity|]. simpl. by rewrite Hws.
Qed.

(** *** Installing a wrapper *)

Lemma fresh_wrapper s this :
  is_Some (wrappers s !! this) → this ≠ fresh (dom (wrappers s)).
Proof.
  intros Hin ->. apply (is_fresh (dom (wrappers s))). by apply elem_of_dom.
Qed.

Lemma install_throws key e s :
  install key (inl e) s = (thrown e, s).
Proof. reflexivity. Qed.

Lemma install_returns key w s p :
  values s !! key = Some p → slot_ok s key = true →
  ∃ s', install key (inr w) s = (returned (), s') ∧
        values s' = <[key := Some (fresh (dom (wrappers s)))]> (values s) ∧
        wrappers s' =
          from_option delete id p (<[fresh (dom (wrappers s)) := w]> (wrappers s)) ∧
        destroyed s' =
          (destroyed s ++ from_option (released s) [] (held s key))%list ∧
        objs s' = foldr delete (objs s) (from_option (freed s) [] (held s key)).
Proof.
  intros Hk Hok. unfold install, new, reset. unfold_monad.
  set (this := fresh (dom (wrappers s))).
  rewrite (index_present key _ p); [|done].
  unfold slot_ok in Hok. unfold held. rewrite Hk in *.
  destruct p as [old|]; simpl.
  - destruct (wrappers s !! old) as [w0|] eqn:Hold; [|done].
    assert (old ≠ this) as Hne by (apply fresh_wrapper; by rewrite Hold).
    edestruct (delete_wrapper_returns old w0
      (with_values <[key := Some this]> (with_wrappers <[this := w]> s)))
      as (s' & -> & Hv & Hws & Hd & Ho).
    { simpl. by rewrite lookup_insert_ne. }
    { done. }
    eexists; split; [reflexivity|]. by rewrite Hv, Hws, Hd, Ho.
  - eexists; split; [reflexivity|]. simpl. by rewrite app_nil_r.
Qed.

(** After a successful [install] the slot holds the new wrapper, alive. *)
Lemma install_lookup key w s p s' :
  values s !! key = Some p → slot_ok s key = true →
  install key (inr w) s = (returned (), s') →
  values s' !! key = Some (Some (fresh (dom (wrappers s)))) ∧
  wrappers s' !! fresh (dom (wrappers s)) = Some w.
Proof.
  intros Hk Hok Hrun.
  destruct (install_returns key w s p Hk Hok) as (s'' & Hrun' & Hv & Hws & _).
  rewrite Hrun in Hrun'. injection Hrun' as <-.
  rewrite Hv, Hws, lookup_insert_eq. split; [done|].
  destruct p as [old|]; simpl; [|by rewrite lookup_insert_eq].
  unfold slot_ok in Hok. rewrite Hk in Hok.
  rewrite lookup_delete_ne, lookup_insert_eq; [done|].
  apply fresh_wrapper. by destruct (wrappers s !! old).
Qed.

(** *** [set] *)

Lemma constructed_ok s arg :
  arg_ok s arg = true → constructed arg = inr (installed arg).
Proof.
  destruct arg as [v|v|v|v|[a|]]; simpl; try done;
    unfold ptr_wrapper_ctor; intros Hv%bool_decide_eq_true; by case_decide.
Qed.

Lemma control_block_frame s a w :
  use_count s !! a = None → wrapper_ok s w = true →
  wrapper_ok (with_use_count <[a := 1]> s) w = true ∧
  released (with_use_count <[a := 1]> s) w = released s w ∧
  freed (with_use_count <[a := 1]> s) w = freed s w.
Proof.
  intros Ha Hok. destruct w as [v|p|[b|]|[b|]]; simpl in *; try done.
  destruct (decide (a = b)) as [->|Hne].
  - rewrite Ha in Hok. by apply andb_true_iff in Hok as [_ ?].
  - by rewrite lookup_insert_ne.
Qed.

Lemma unwinding_returned {A} (cleanup : M impl unit) (m : M impl A) s a s' :
  m s = (returned a, s') → unwinding cleanup m s = (returned a, s').
Proof. intros Hm. unfold unwinding. by rewrite Hm. Qed.

(** Every overload, on a declared type with a valid argument, returns, and
    the slot then holds a new wrapper of the class [installed] names. *)
Lemma set_returns T arg s p :
  values s !! type_id T = Some p →
  slot_ok s (type_id T) = true →
  arg_ok s arg = true →
  ∃ s', set type_id T arg s = (returned (), s') ∧
        values s' = <[type_id T := Some (fresh (dom (wrappers s)))]> (values s) ∧
        wrappers s' =
          from_option delete id p
            (<[fresh (dom (wrappers s)) := installed arg]> (wrappers s)) ∧
        destroyed s' =
          (destroyed s ++ from_option (released s) [] (held s (type_id T)))%list ∧
        objs s' =
          foldr delete (objs s) (from_option (freed s) [] (held s (type_id T))).
Proof.
  intros Hk Hok Harg.
  pose proof (constructed_ok s arg Harg) as Hc.
  assert (verify_type type_id T s = (returned (type_id T), s)) as Hv
    by (apply verify_type_declared; by rewrite Hk).
  destruct arg as [v|v|v|v|[a|]]; simpl in Hc; try done.
  1-4: simpl; unfold set_value, set_ptr_X, set_ref, set_ptr.
  1-4: unfold mbind, M_bind, bind at 1; rewrite Hv, Hc.
  1-4: exact (install_returns _ _ _ _ Hk Hok).
  simpl in Harg. apply andb_true_iff in Harg as [_ Ha%bool_decide_eq_true].
  set (s1 := with_use_count <[a := 1]> s).
  assert (slot_ok s1 (type_id T) = true ∧
          from_option (released s1) [] (held s1 (type_id T))
            = from_option (released s) [] (held s (type_id T)) ∧
          from_option (freed s1) [] (held s1 (type_id T))
            = from_option (freed s) [] (held s (type_id T))) as (Hok1 & Hr & Hf).
  { unfold slot_ok, held in *. simpl. rewrite Hk in *.
    destruct p as [old|]; [|done].
    destruct (wrappers s !! old) as [w0|]; [|done]. simpl.
    by apply control_block_frame. }
  destruct (install_returns (type_id T) (sptr_wrapper (Some a)) s1 p Hk Hok1)
    as (s' & Hrun & Hvs & Hws & Hd & Ho).
  exists s'. rewrite <- Hr, <- Hf. split; [|done].
  simpl. unfold set_uptr. apply unwinding_returned.
  unfold mbind, M_bind, bind at 1. rewrite Hv. exact Hrun.
Qed.

(** *** [get] *)

Lemma get_undeclared X s :
  values s !! type_id X = None →
  get type_id X s = (thrown (invalid_argument "Type specified is not a need!"), s).
Proof.
  intros Hk. unfold get. unfold mbind, M_bind, bind.
  by rewrite verify_type_undeclared.
Qed.

Lemma get_empty X s :
  values s !! type_id X = Some None →
  get type_id X s = (thrown (runtime_error "Need type never set!"), s).
Proof.
  intros Hk. unfold get. unfold mbind, M_bind, bind.
  rewrite verify_type_declared by (by rewrite Hk).
  by rewrite (index_present _ _ None).
Qed.

Lemma get_populated X s this w :
  values s !! type_id X = Some (Some this) →
  wrappers s !! this = Some w →
  get type_id X s = (returned (getRaw this w), s).
Proof.
  intros Hk Hw. unfold get. unfold mbind, M_bind, bind.
  rewrite verify_type_declared by (by rewrite Hk).
  rewrite (index_present _ _ (Some this)) by done.
  unfold load. by rewrite Hw.
Qed.

Lemma get_dangling X s this :
  values s !! type_id X = Some (Some this) →
  wrappers s !! this = None →
  get type_id X s = (undefined, s).
Proof.
  intros Hk Hw. unfold get. unfold mbind, M_bind, bind.
  rewrite verify_type_declared by (by rewrite Hk).
  rewrite (index_present _ _ (Some this)) by done.
  unfold load. by rewrite Hw.
Qed.

(** *** The constructor *)

Lemma with_values_insert_twice key (p q : option positive) s :
  with_values <[key := p]> (with_values <[key := q]> s) = with_values <[key := p]> s.
Proof. unfold with_values. simpl. by rewrite insert_insert_eq. Qed.

Lemma reset_null key s :
  values s !! key = None ∨ values s !! key = Some None →
  reset key None s = (returned (), with_values <[key := None]> s).
Proof.
  intros [Hk|Hk]; unfold reset, index; unfold_monad; rewrite Hk; [|done].
  by rewrite with_values_insert_twice.
Qed.

Lemma needs_ctor_loop_returns ids s :
  (∀ key, values s !! key = None ∨ values s !! key = Some None) →
  needs_ctor_loop ids s =
    (returned (), with_values (λ m, foldl (λ m t, <[t := None]> m) m ids) s).
Proof.
  revert s. induction ids as [|t ids IH]; intros s Hnull; simpl.
  - by destruct s.
  - unfold mbind, M_bind, bind. rewrite reset_null by done.
    rewrite IH; [done|]. intros key. simpl.
    destruct (decide (t = key)) as [->|Hne].
    + right. by rewrite lookup_insert_eq.
    + rewrite lookup_insert_ne by done. apply Hnull.
Qed.

Lemma needs_ctor_returns Needs s :
  needs_ctor type_id Needs s =
    (returned (), with_values (λ _, empty_slots (type_id <$> Needs)) s).
Proof.
  unfold needs_ctor. unfold mbind, M_bind, bind, modify.
  rewrite needs_ctor_loop_returns; [done|]. intros key. left. apply lookup_empty.
Qed.

Lemma foldl_null_lookup ids (m : gmap size_t (option positive)) key :
  foldl (λ m t, <[t := None]> m) m ids !! key =
    if decide (key ∈ ids) then Some None else m !! key.
Proof.
  revert m. induction ids as [|t ids IH]; intros m; cbn [foldl].
  - case_decide as Hin; [|done]. by apply elem_of_nil in Hin.
  - rewrite IH.
    destruct (decide (key ∈ ids)) as [Hin|Hin];
      destruct (decide (key ∈ t :: ids)) as [Hin'|Hin']; try done.
    + destruct Hin'. by apply list_elem_of_further.
    + apply elem_of_cons in Hin' as [->|?]; [|done]. by rewrite lookup_insert_eq.
    + rewrite lookup_insert_ne; [done|]. intros ->. apply Hin', list_elem_of_here.
Qed.

Lemma empty_slots_lookup ids key :
  empty_slots ids !! key = if decide (key ∈ ids) then Some None else None.
Proof. unfold empty_slots. by rewrite foldl_null_lookup, lookup_empty. Qed.

Lemma empty_slots_dom ids : dom (empty_slots ids) = list_to_set ids.
Proof.
  apply set_eq. intros key.
  rewrite elem_of_dom, empty_slots_lookup, elem_of_list_to_set.
  case_decide as Hin; [done|]. split; [|done].
  intros Hsome. by apply is_Some_None in Hsome.
Qed.

(** *** What [set] does to the map, whatever the outcome *)

Ltac unfold_set :=
  unfold set, set_value, set_ptr_X, set_ref, set_ptr, set_uptr,
    unwinding, shared_from_unique, new, reset, index, delete_wrapper, load,
    wrapper_dtor, unique_ptr_dtor, shared_ptr_dtor, delete_object,
    value_wrapper_ctor, ptr_wrapper_ctor_ref, ptr_wrapper_ctor,
    sptr_wrapper_ctor, with_values, with_wrappers, with_objs,
    with_destroyed, with_use_count in *;
  unfold_monad.

Lemma set_thrown_frame T arg s e s' :
  set type_id T arg s = (thrown e, s') →
  values s' = values s ∧ wrappers s' = wrappers s.
Proof.
  destruct (verify_type_cases T s) as [[_ Hv]|[_ Hv]];
    destruct arg as [v|v|v|v|[a|]]; unfold_set; rewrite Hv; simpl;
    repeat (case_match; simplify_eq/=); try done;
    intros; simplify_eq/=; done.
Qed.

Lemma set_dom T arg s : dom (values (set type_id T arg s).2) = dom (values s).
Proof.
  destruct (verify_type_cases T s) as [[[p Hp] Hv]|[_ Hv]];
    destruct arg as [v|v|v|v|[a|]]; unfold_set; rewrite Hv; simpl;
    repeat (case_match; simplify_eq/=); try done;
    by rewrite dom_insert_lookup_L.
Qed.

Lemma set_undeclared T arg s :
  values s !! type_id T = None → handle_ok s arg = true →
  ∃ s', set type_id T arg s =
          (thrown (invalid_argument "Type specified is not a need!"), s').
Proof.
  intros Hk Hh. pose proof (verify_type_undeclared T s Hk) as Hv.
  destruct arg as [v|v|v|v|[a|]]; unfold_set; rewrite Hv; simpl; eauto.
  simpl in Hh. apply bool_decide_eq_true in Hh as [v ->]. eauto.
Qed.

(** [get] only reads. *)
Lemma get_state X s : (get type_id X s).2 = s.
Proof.
  destruct (values s !! type_id X) as [[this|]|] eqn:Hk.
  - destruct (wrappers s !! this) as [w|] eqn:Hw.
    + by rewrite (get_populated X s this w).
    + by rewrite (get_dangling X s this).
  - by rewrite get_empty.
  - by rewrite get_undeclared.
Qed.

(** A type is declared exactly when its identifier is a key. *)
Lemma declared_iff (Needs : list ctype) T s :
  Inj (=) (=) type_id →
  dom (values s) = list_to_set (type_id <$> Needs) →
  T ∈ Needs ↔ is_Some (values s !! type_id T).
Proof.
  intros Hinj Hdom. rewrite <- elem_of_dom, Hdom, elem_of_list_to_set.
  rewrite list_elem_of_fmap. split.
  - intros HT. by exists T.
  - intros (T' & Heq & HT'). by apply Hinj in Heq as ->.
Qed.

(** The pointer [get] hands out after a successful [set], for every
    overload: the one the new wrapper's [get()] returns. *)
Lemma set_then_get T arg s p :
  values s !! type_id T = Some p →
  slot_ok s (type_id T) = true →
  arg_ok s arg = true →
  ∃ s' this, set type_id T arg s = (returned (), s') ∧
             values s' !! type_id T = Some (Some this) ∧
             wrappers s' !! this = Some (installed arg) ∧
             get type_id T s' = (returned (wrapper_get this (installed arg)), s').
Proof.
  intros Hk Hok Harg.
  destruct (set_returns T arg s p Hk Hok Harg) as (s' & Hrun & Hv & Hws & _).
  exists s', (fresh (dom (wrappers s))).
  assert (values s' !! type_id T = Some (Some (fresh (dom (wrappers s))))) as Hslot
    by (by rewrite Hv, lookup_insert_eq).
  assert (wrappers s' !! fresh (dom (wrappers s)) = Some (installed arg)) as Hnew.
  { rewrite Hws. destruct p as [old|]; simpl; [|by rewrite lookup_insert_eq].
    unfold slot_ok in Hok. rewrite Hk in Hok.
    rewrite lookup_delete_ne, lookup_insert_eq; [done|].
    apply fresh_wrapper. by destruct (wrappers s !! old). }
  repeat split; try done. by apply get_populated.
Qed.

(** The class installed is the one the passing mode asks for, except for
    the [std::unique_ptr] overload. *)
Lemma installed_matches_intent arg :
  variant (installed arg) = spec_intent arg ↔ ∀ v, arg ≠ by_unique_ptr v.
Proof.
  destruct arg as [v|v|v|v|v]; simpl; split; try done.
  intros Hne. by destruct (Hne v).
Qed.

(** A slot of a container that was just constructed can be set. *)
Lemma needs_ctor_slot_ok (Needs : list ctype) s key :
  slot_ok (needs_ctor type_id Needs s).2 key = true.
Proof.
  rewrite needs_ctor_returns. unfold slot_ok. simpl.
  rewrite empty_slots_lookup. by case_decide.
Qed.

(** So can a slot that was set by value, pointer or reference. *)
Lemma set_slot_ok T arg s p :
  values s !! type_id T = Some p →
  slot_ok s (type_id T) = true →
  arg_ok s arg = true →
  (∀ v, arg ≠ by_unique_ptr v) →
  slot_ok (set type_id T arg s).2 (type_id T) = true.
Proof.
  intros Hk Hok Harg Hne.
  destruct (set_then_get T arg s p Hk Hok Harg) as (s' & this & -> & Hv & Hw & _).
  unfold slot_ok. simpl. rewrite Hv, Hw.
  destruct arg as [v|v|v|v|v]; try done. by destruct (Hne v).
Qed.

(** With distinct declared types, the constructor makes as many slots as
    there are types. *)
Lemma needs_ctor_size (Needs : list ctype) s :
  Inj (=) (=) type_id → NoDup Needs →
  size (values (needs_ctor type_id Needs s).2) = length Needs.
Proof.
  intros Hinj Hnd. rewrite needs_ctor_returns. simpl.
  rewrite <- size_dom, empty_slots_dom, size_list_to_set.
  - apply length_fmap.
  - by apply NoDup_fmap_2.
Qed.

(** A throwing [set] leaves the whole memory as it was, when the argument
    is not a [std::unique_ptr]. *)
Lemma set_thrown_state T arg s e s' :
  (∀ v, arg ≠ by_unique_ptr v) →
  set type_id T arg s = (thrown e, s') → s' = s.
Proof.
  intros Hne.
  destruct (verify_type_cases T s) as [[_ Hv]|[_ Hv]];
    destruct arg as [v|v|v|v|v]; try (by destruct (Hne v));
    unfold_set; rewrite Hv; simpl;
    repeat (case_match; simplify_eq/=); try done;
    intros; simplify_eq/=; done.
Qed.

(** A [std::unique_ptr] passed for an undeclared type is destroyed with
    the parameter, and the object it owned with it. *)
Lemma set_uptr_undeclared T a v s :
  values s !! type_id T = None → objs s !! a = Some v →
  set type_id T (by_unique_ptr (Some a)) s =
    (thrown (invalid_argument "Type specified is not a need!"),
     with_destroyed (λ l, (l ++ [v])%list) (with_objs (delete a) s)).
Proof.
  intros Hk Ha. simpl. unfold set_uptr, unwinding.
  unfold mbind, M_bind, bind at 1. rewrite verify_type_undeclared by done.
  simpl. by rewrite (delete_object_live a v).
Qed.

(** On a declared type a null pointer or an empty handle is rejected by
    the wrapper's constructor, and the memory stays as it was. An empty
    [std::unique_ptr] is reported by [sptr_wrapper]'s constructor. *)
Lemma set_null_throws T s :
  is_Some (values s !! type_id T) →
  set type_id T (by_pointer_X nullptr) s
    = (thrown (invalid_argument "Null raw pointer!"), s) ∧
  set type_id T (by_pointer nullptr) s
    = (thrown (invalid_argument "Null raw pointer!"), s) ∧
  set type_id T (by_unique_ptr None) s
    = (thrown (invalid_argument "Null shared pointer!"), s).
Proof.
  intros Hk. pose proof (verify_type_declared T s Hk) as Hv.
  repeat split; simpl; unfold set_ptr_X, set_ptr, set_uptr, unwinding;
    unfold mbind, M_bind, bind at 1; by rewrite Hv.
Qed.

(** *** The claims *)

(** C1, at the overload where the code departs from it. On a declared type,
    [set] with a non-empty [std::unique_ptr] returns, and the wrapper it
    leaves in the slot is an [sptr_wrapper], the shared class, not the
    exclusively-owned [uptr_wrapper]. *)
Theorem set_unique_ptr_installs_shared_wrapper T a s p :
  values s !! type_id T = Some p →
  slot_ok s (type_id T) = true →
  arg_ok s (by_unique_ptr (Some a)) = true →
  ∃ s' this w, set type_id T (by_unique_ptr (Some a)) s = (returned (), s') ∧
               values s' !! type_id T = Some (Some this) ∧
               wrappers s' !! this = Some w ∧
               w = sptr_wrapper (Some a) ∧
               variant w = Shared ∧ variant w ≠ Exclusive.
Proof.
  intros Hk Hok Harg.
  destruct (set_then_get T _ s p Hk Hok Harg) as (s' & this & Hrun & Hv & Hw & _).
  exists s', this, (sptr_wrapper (Some a)). by repeat split.
Qed.

(** C2. When [T] is not among the declared types, every overload of
    [set<T>] and [get<T>] throw [std::invalid_argument]; [what()] is the
    header's text, "Type specified is not a need!". *)
Theorem undeclared_type_rejected (Needs : list ctype) T arg s :
  Inj (=) (=) type_id →
  dom (values s) = list_to_set (type_id <$> Needs) →
  T ∉ Needs →
  handle_ok s arg = true →
  (set type_id T arg s).1 = thrown (invalid_argument "Type specified is not a need!") ∧
  (get type_id T s).1 = thrown (invalid_argument "Type specified is not a need!").
Proof.
  intros Hinj Hdom HT Hh.
  assert (values s !! type_id T = None) as Hk.
  { apply eq_None_not_Some. by rewrite <- (declared_iff Needs). }
  split.
  - destruct (set_undeclared T arg s Hk Hh) as [s' ->]. done.
  - by rewrite get_undeclared.
Qed.

(** C3. In a container that was just constructed, [get<T>] on a declared
    [T] throws [std::runtime_error]; [what()] is "Need type never set!". *)
Theorem get_fresh_container_unset (Needs : list ctype) T s :
  T ∈ Needs →
  ∃ s0, needs_ctor type_id Needs s = (returned (), s0) ∧
        get type_id T s0 = (thrown (runtime_error "Need type never set!"), s0).
Proof.
  intros HT. eexists. split; [apply needs_ctor_returns|].
  apply get_empty. simpl. rewrite empty_slots_lookup.
  rewrite decide_True; [done|]. by apply list_elem_of_fmap_2.
Qed.

(** C4. [set<T>(v)] with a value, on a declared [T], returns; [get<T>]
    then returns a pointer, and what it points to is [v]. *)
Theorem set_value_get_roundtrip T v s p :
  values s !! type_id T = Some p →
  slot_ok s (type_id T) = true →
  ∃ s' ptr, set type_id T (by_value v) s = (returned (), s') ∧
            get type_id T s' = (returned ptr, s') ∧
            deref s' ptr = Some v.
Proof.
  intros Hk Hok.
  destruct (set_then_get T (by_value v) s p Hk Hok eq_refl)
    as (s' & this & Hrun & Hv & Hw & Hget).
  exists s', (Some (member_value this)). repeat split; try done.
  simpl. by rewrite Hw.
Qed.

(** C5. The pointer-taking constructors of [ptr_wrapper], [uptr_wrapper]
    and [sptr_wrapper] throw [std::invalid_argument] on a null pointer or
    an empty handle; on any other input they construct the wrapper, whose
    [get()] returns the address that was passed. *)
Theorem wrapper_ctor_null_check :
  @ptr_wrapper_ctor impl nullptr = inl (invalid_argument "Null raw pointer!") ∧
  @uptr_wrapper_ctor impl None = inl (invalid_argument "Null unique pointer!") ∧
  @sptr_wrapper_ctor impl None = inl (invalid_argument "Null shared pointer!") ∧
  (∀ (v : place) this,
     ∃ w, @ptr_wrapper_ctor impl (Some v) = inr w ∧ wrapper_get this w = Some v) ∧
  (∀ (v : place) this,
     ∃ w, @ptr_wrapper_ctor_ref impl v = inr w ∧ wrapper_get this w = Some v) ∧
  (∀ (a : positive) this,
     ∃ w, @uptr_wrapper_ctor impl (Some a) = inr w ∧
          wrapper_get this w = Some (object a)) ∧
  (∀ (a : positive) this,
     ∃ w, @sptr_wrapper_ctor impl (Some a) = inr w ∧
          wrapper_get this w = Some (object a)).
Proof.
  repeat split; try done; intros v this; eexists; split; done.
Qed.

(** C6. Setting a slot that holds a wrapper replaces it: the call returns,
    the old wrapper is no longer allocated, the destructors of the values
    it owned have run (their storage is gone), the slot holds a new wrapper
    built from the argument, and [get<T>] returns that wrapper's pointer
    and leaves the memory as it is, so every later [get<T>] does too. *)
Theorem set_replaces_wrapper T arg s old w_old :
  values s !! type_id T = Some (Some old) →
  wrappers s !! old = Some w_old →
  wrapper_ok s w_old = true →
  arg_ok s arg = true →
  ∃ s' this, set type_id T arg s = (returned (), s') ∧
             this ≠ old ∧
             values s' !! type_id T = Some (Some this) ∧
             wrappers s' !! old = None ∧
             wrappers s' !! this = Some (installed arg) ∧
             destroyed s' = (destroyed s ++ released s w_old)%list ∧
             (∀ a, a ∈ freed s w_old → objs s' !! a = None) ∧
             get type_id T s' = (returned (wrapper_get this (installed arg)), s') ∧
             (∀ v, arg = by_value v →
                   deref s' (wrapper_get this (installed arg)) = Some v).
Proof.
  intros Hk Hold Hwok Harg.
  assert (slot_ok s (type_id T) = true) as Hok
    by (unfold slot_ok; by rewrite Hk, Hold).
  assert (held s (type_id T) = Some w_old) as Hheld
    by (unfold held; by rewrite Hk).
  destruct (set_returns T arg s _ Hk Hok Harg) as (s' & Hrun & Hv & Hws & Hd & Ho).
  destruct (set_then_get T arg s _ Hk Hok Harg)
    as (s'' & this & Hrun' & Hslot & Hnew & Hget).
  rewrite Hrun in Hrun'. injection Hrun' as <-.
  rewrite Hheld in Hd, Ho. simpl in Hd, Ho, Hws.
  assert (wrappers s' !! old = None) as Hgone by (by rewrite Hws, lookup_delete_eq).
  exists s', this. repeat split; try done.
  - intros ->. by rewrite Hnew in Hgone.
  - intros a Ha. rewrite Ho.
    destruct w_old as [v0|p0|[b|]|[b|]]; simpl in *;
      try (by apply elem_of_nil in Ha).
    + apply list_elem_of_singleton in Ha as ->. apply lookup_delete_eq.
    + destruct (use_count s !! b) as [[|[|n]]|]; try (by apply elem_of_nil in Ha).
      apply list_elem_of_singleton in Ha as ->. apply lookup_delete_eq.
  - intros v ->. simpl. by rewrite Hnew.
Qed.

(** C7. [get<X>] changes nothing: whether it returns, throws for an
    undeclared type or throws for an empty slot, the memory after the call,
    every slot of the map with it, is the memory before the call. *)
Theorem get_does_not_mutate X s : (get type_id X s).2 = s.
Proof. apply get_state. Qed.

(** C9. The constructor makes the map whose keys are the identifiers of
    the declared types, each with a null pointer; and no call of [set]
    (any overload, any outcome) or [get] changes the set of keys. *)
Theorem slots_fixed :
  (∀ (Needs : list ctype) s,
     ∃ s0, needs_ctor type_id Needs s = (returned (), s0) ∧
           dom (values s0) = list_to_set (type_id <$> Needs) ∧
           ∀ key, key ∈ dom (values s0) → values s0 !! key = Some None) ∧
  (∀ T arg s, dom (values (set type_id T arg s).2) = dom (values s)) ∧
  (∀ X s, dom (values (get type_id X s).2) = dom (values s)).
Proof.
  split; [|split].
  - intros Needs s. eexists. split; [apply needs_ctor_returns|]. simpl.
    split; [apply empty_slots_dom|].
    intros key Hkey. rewrite empty_slots_dom, elem_of_list_to_set in Hkey.
    rewrite empty_slots_lookup. by rewrite decide_True.
  - apply set_dom.
  - intros X s. by rewrite get_state.
Qed.

(** C10. When an overload of [set] throws, the map and the wrappers are
    what they were before the call: the slot keeps the wrapper it had. *)
Theorem set_atomic_on_failure T arg s e s' :
  set type_id T arg s = (thrown e, s') →
  values s' = values s ∧ wrappers s' = wrappers s ∧
  held s' (type_id T) = held s (type_id T).
Proof.
  intros Hrun. destruct (set_thrown_frame T arg s e s' Hrun) as [Hv Hw].
  repeat split; try done. unfold held. by rewrite Hv, Hw.
Qed.

End Properties.

(** ** The demonstration program, checked *)

Lemma demo_type_id_inj : Inj (=) (=) Demo.type_id.
Proof. intros [] [] Heq; try done; by vm_compute in Heq. Qed.

(** [a.set<IPrint>(std::unique_ptr<IPrint>(new PrintHello("World!")))],
    after the first [set] of [main]: the slot ends with an [sptr_wrapper]. *)
Lemma set_unique_ptr_installs_shared_wrapper_witness :
  values Demo.a_set_someone !! Demo.type_id Demo.IPrint = Some (Some 1%positive) ∧
  slot_ok Demo.a_set_someone (Demo.type_id Demo.IPrint) = true ∧
  arg_ok Demo.a_set_someone (by_unique_ptr (Some 2%positive)) = true ∧
  ∃ s' this w,
    set Demo.type_id Demo.IPrint (by_unique_ptr (Some 2%positive)) Demo.a_set_someone
      = (returned (), s') ∧
    values s' !! Demo.type_id Demo.IPrint = Some (Some this) ∧
    wrappers s' !! this = Some w ∧
    w = sptr_wrapper (Some 2%positive) ∧
    variant w = Shared ∧ variant w ≠ Exclusive.
Proof.
  split; [vm_compute; reflexivity|].
  split; [vm_compute; reflexivity|].
  split; [vm_compute; reflexivity|].
  apply (set_unique_ptr_installs_shared_wrapper Demo.type_id Demo.IPrint
           2%positive Demo.a_set_someone (Some 1%positive));
    vm_compute; reflexivity.
Defined.

(** [PrintHello] is not a need of [A]: [set] and [get] on it throw. *)
Lemma undeclared_type_rejected_witness :
  (Inj (=) (=) Demo.type_id) ∧
  dom (values Demo.a_set_someone) = list_to_set (Demo.type_id <$> Demo.A_needs) ∧
  (Demo.PrintHello ∉ Demo.A_needs) ∧
  handle_ok Demo.a_set_someone (by_unique_ptr (Some 2%positive)) = true ∧
  (set Demo.type_id Demo.PrintHello (by_unique_ptr (Some 2%positive))
     Demo.a_set_someone).1
    = thrown (invalid_argument "Type specified is not a need!") ∧
  (get Demo.type_id Demo.PrintHello Demo.a_set_someone).1
    = thrown (invalid_argument "Type specified is not a need!").
Proof.
  assert (Demo.PrintHello ∉ Demo.A_needs) as Hnot
    by (apply (bool_decide_unpack (Demo.PrintHello ∉ Demo.A_needs));
        vm_compute; exact I).
  split; [exact demo_type_id_inj|].
  split; [vm_compute; reflexivity|].
  split; [exact Hnot|].
  split; [vm_compute; reflexivity|].
  apply (undeclared_type_rejected Demo.type_id Demo.A_needs Demo.PrintHello
           (by_unique_ptr (Some 2%positive)) Demo.a_set_someone
           demo_type_id_inj);
    [vm_compute; reflexivity|exact Hnot|vm_compute; reflexivity].
Defined.

(** [a.quack()] before any [a.set<IDuck>(...)]. *)
Lemma get_fresh_container_unset_witness :
  Demo.IDuck ∈ Demo.A_needs ∧
  ∃ s0, needs_ctor Demo.type_id Demo.A_needs Demo.main_memory = (returned (), s0) ∧
        get Demo.type_id Demo.IDuck s0
          = (thrown (runtime_error "Need type never set!"), s0).
Proof.
  assert (Demo.IDuck ∈ Demo.A_needs) as Hin
    by (apply (bool_decide_unpack (Demo.IDuck ∈ Demo.A_needs));
        vm_compute; exact I).
  split; [exact Hin|].
  apply (get_fresh_container_unset Demo.type_id Demo.A_needs Demo.IDuck
           Demo.main_memory Hin).
Defined.

(** [a.set<IPrint>(PrintHello("X")); a.print();] *)
Lemma set_value_get_roundtrip_witness :
  values Demo.a_set_someone !! Demo.type_id Demo.IPrint = Some (Some 1%positive) ∧
  slot_ok Demo.a_set_someone (Demo.type_id Demo.IPrint) = true ∧
  ∃ s' ptr,
    set Demo.type_id Demo.IPrint (by_value (Demo.print_hello "X")) Demo.a_set_someone
      = (returned (), s') ∧
    get Demo.type_id Demo.IPrint s' = (returned ptr, s') ∧
    deref s' ptr = Some (Demo.print_hello "X").
Proof.
  split; [vm_compute; reflexivity|].
  split; [vm_compute; reflexivity|].
  apply (set_value_get_roundtrip Demo.type_id Demo.IPrint (Demo.print_hello "X")
           Demo.a_set_someone (Some 1%positive));
    vm_compute; reflexivity.
Defined.

(** The second [set] of [main] destroys the [PrintHello("someone")] the
    first one stored. *)
Lemma set_replaces_wrapper_witness :
  values Demo.a_set_someone !! Demo.type_id Demo.IPrint = Some (Some 1%positive) ∧
  wrappers Demo.a_set_someone !! 1%positive
    = Some (value_wrapper (Demo.print_hello "someone")) ∧
  wrapper_ok Demo.a_set_someone (value_wrapper (Demo.print_hello "someone")) = true ∧
  arg_ok Demo.a_set_someone (by_value (Demo.print_hello "X")) = true ∧
  ∃ s' this,
    set Demo.type_id Demo.IPrint (by_value (Demo.print_hello "X")) Demo.a_set_someone
      = (returned (), s') ∧
    this ≠ 1%positive ∧
    values s' !! Demo.type_id Demo.IPrint = Some (Some this) ∧
    wrappers s' !! 1%positive = None ∧
    wrappers s' !! this = Some (installed (by_value (Demo.print_hello "X"))) ∧
    destroyed s' =
      (destroyed Demo.a_set_someone ++
       released Demo.a_set_someone (value_wrapper (Demo.print_hello "someone")))%list ∧
    (∀ a, a ∈ freed Demo.a_set_someone (value_wrapper (Demo.print_hello "someone")) →
          objs s' !! a = None) ∧
    get Demo.type_id Demo.IPrint s'
      = (returned (wrapper_get this (installed (by_value (Demo.print_hello "X")))), s') ∧
    (∀ v, by_value (Demo.print_hello "X") = by_value v →
          deref s' (wrapper_get this (installed (by_value (Demo.print_hello "X"))))
            = Some v).
Proof.
  split; [vm_compute; reflexivity|].
  split; [vm_compute; reflexivity|].
  split; [reflexivity|].
  split; [reflexivity|].
  apply (set_replaces_wrapper Demo.type_id Demo.IPrint
           (by_value (Demo.print_hello "X")) Demo.a_set_someone 1%positive
           (value_wrapper (Demo.print_hello "someone")));
    vm_compute; reflexivity.
Defined.

(** [a.set<IPrint>((IPrint* )nullptr)] throws and leaves the slot alone. *)
Lemma set_atomic_on_failure_witness :
  set Demo.type_id Demo.IPrint (by_pointer nullptr) Demo.a_set_someone
    = (thrown (invalid_argument "Null raw pointer!"), Demo.a_set_someone) ∧
  values Demo.a_set_someone = values Demo.a_set_someone ∧
  wrappers Demo.a_set_someone = wrappers Demo.a_set_someone ∧
  held Demo.a_set_someone (Demo.type_id Demo.IPrint)
    = held Demo.a_set_someone (Demo.type_id Demo.IPrint).
Proof.
  assert (set Demo.type_id Demo.IPrint (by_pointer nullptr) Demo.a_set_someone
          = (thrown (invalid_argument "Null raw pointer!"), Demo.a_set_someone))
    as Hrun by (vm_compute; reflexivity).
  split; [exact Hrun|].
  exact (set_atomic_on_failure Demo.type_id Demo.IPrint (by_pointer nullptr)
           Demo.a_set_someone _ _ Hrun).
Defined.

(** ** Further properties of the container *)

Section Container.

Context {ctype : Type} {impl : Type}.
Variable type_id : ctype → size_t.

Implicit Types (s : state impl) (T U X : ctype) (w : wrapper impl)
  (arg : argument impl) (key : size_t).

Ltac unfold_set :=
  unfold set, set_value, set_ptr_X, set_ref, set_ptr, set_uptr,
    unwinding, shared_from_unique, new, reset, index, delete_wrapper, load,
    wrapper_dtor, unique_ptr_dtor, shared_ptr_dtor, delete_object,
    value_wrapper_ctor, ptr_wrapper_ctor_ref, ptr_wrapper_ctor,
    sptr_wrapper_ctor, with_values, with_wrappers, with_objs,
    with_destroyed, with_use_count in *;
  unfold mbind, M_bind, bind, mret, M_ret, ret, gets, modify, throw, undef in *.

(** *** The shape of a call that returns *)

Lemma set_returned_shape T arg s s' :
  set type_id T arg s = (returned (), s') →
  ∃ p, values s !! type_id T = Some p ∧
       values s' = <[type_id T := Some (fresh (dom (wrappers s)))]> (values s) ∧
       wrappers s' =
         from_option delete id p
           (<[fresh (dom (wrappers s)) := installed arg]> (wrappers s)).
Proof.
  destruct (verify_type_cases type_id T s) as [[[p Hp] Hv]|[Hp Hv]];
    destruct arg as [v|v|v|v|[a|]]; unfold_set; rewrite Hv; simpl;
    rewrite ?Hp; simpl;
    repeat (case_match; simplify_eq/=); try done;
    intros; simplify_eq/=; eexists; (split; [done|]); done.
Qed.

(** *** The invariant *)

Lemma container_ok_ext s s' :
  values s' = values s → wrappers s' = wrappers s →
  container_ok s → container_ok s'.
Proof.
  intros Hv Hw [Hlive Hdist]. split.
  - intros key this. rewrite Hv, Hw. apply Hlive.
  - intros k1 k2 this. rewrite Hv. apply Hdist.
Qed.

Lemma container_ok_ctor (Needs : list ctype) s :
  container_ok (needs_ctor type_id Needs s).2.
Proof.
  rewrite needs_ctor_returns.
  split; [intros key this|intros k1 k2 this]; simpl;
    rewrite empty_slots_lookup; by case_decide.
Qed.

Lemma container_ok_set T arg s :
  container_ok s → (set type_id T arg s).1 ≠ undefined →
  container_ok (set type_id T arg s).2.
Proof.
  intros [Hlive Hdist] Hdef.
  destruct (set type_id T arg s) as [[[]|e|] s'] eqn:Hrun; simpl in *; [| |done].
  - destruct (set_returned_shape T arg s s' Hrun) as (p & Hk & Hv & Hw).
    set (this := fresh (dom (wrappers s))) in *.
    assert (∀ key x, key ≠ type_id T → values s !! key = Some (Some x) →
                     x ≠ this ∧ wrappers s' !! x = wrappers s !! x) as Hother.
    { intros key x Hne Hx.
      assert (x ≠ this) as Hfresh by (apply fresh_wrapper; by eapply Hlive).
      split; [done|]. rewrite Hw. destruct p as [old|]; simpl.
      - rewrite lookup_delete_ne, lookup_insert_ne; [done..|].
        intros ->. by destruct Hne; apply (Hdist key (type_id T) x).
      - by rewrite lookup_insert_ne. }
    assert (wrappers s' !! this = Some (installed arg)) as Hnew.
    { rewrite Hw. destruct p as [old|]; simpl; [|by rewrite lookup_insert_eq].
      rewrite lookup_delete_ne, lookup_insert_eq; [done|].
      apply fresh_wrapper. by eapply Hlive. }
    split.
    + intros key x. rewrite Hv.
      destruct (decide (key = type_id T)) as [->|Hne].
      * rewrite lookup_insert_eq. intros [= <-]. by rewrite Hnew.
      * rewrite lookup_insert_ne by done. intros Hx.
        destruct (Hother key x Hne Hx) as [_ ->]. by eapply Hlive.
    + intros k1 k2 x. rewrite Hv.
      destruct (decide (k1 = type_id T)) as [->|Hne1];
        destruct (decide (k2 = type_id T)) as [->|Hne2]; try done.
      * rewrite lookup_insert_eq, lookup_insert_ne by done.
        intros [= <-] Hx. by destruct (Hother k2 this Hne2 Hx).
      * rewrite lookup_insert_eq, lookup_insert_ne by done.
        intros Hx [= <-]. by destruct (Hother k1 this Hne1 Hx).
      * rewrite !lookup_insert_ne by done. apply Hdist.
  - destruct (set_thrown_frame type_id T arg s e s' Hrun) as [Hv Hw].
    by apply (container_ok_ext s s').
Qed.

(** What [get] does is decided by the slot and the wrapper in it. *)
Lemma get_outcome_ext X s1 s2 :
  values s1 !! type_id X = values s2 !! type_id X →
  (∀ this, values s2 !! type_id X = Some (Some this) →
           wrappers s1 !! this = wrappers s2 !! this) →
  (get type_id X s1).1 = (get type_id X s2).1.
Proof.
  intros Hv Hw.
  destruct (values s2 !! type_id X) as [[this|]|] eqn:Hk.
  - specialize (Hw this eq_refl).
    destruct (wrappers s2 !! this) as [w|] eqn:Hthis.
    + by rewrite (get_populated type_id X s1 this w), (get_populated type_id X s2 this w).
    + by rewrite (get_dangling type_id X s1 this), (get_dangling type_id X s2 this).
  - by rewrite !get_empty.
  - by rewrite !get_undeclared.
Qed.

Lemma reachable_container_ok_aux s :
  reachable type_id s → container_ok s.
Proof.
  induction 1 as [Needs s|T arg s _ IH Hdef|X s _ IH].
  - apply container_ok_ctor.
  - by apply container_ok_set.
  - by rewrite get_state.
Qed.

(** X1. Every memory a container reaches, from its construction through
    calls of [set] and [get] that stay in the language, keeps the
    invariant: each slot's wrapper is allocated and belongs to that slot
    alone. *)
Theorem reachable_container_ok s :
  reachable type_id s → container_ok s.
Proof. apply reachable_container_ok_aux. Qed.

(** X2. On such a memory [get] never reads a wrapper that was freed: it
    throws for an undeclared type, throws for an empty slot, or returns
    what the [get()] of the live wrapper in the slot returns. *)
Theorem get_on_reachable X s :
  reachable type_id s →
  (values s !! type_id X = None ∧
   get type_id X s
     = (thrown (invalid_argument "Type specified is not a need!"), s)) ∨
  (values s !! type_id X = Some None ∧
   get type_id X s = (thrown (runtime_error "Need type never set!"), s)) ∨
  (∃ this w, values s !! type_id X = Some (Some this) ∧
             wrappers s !! this = Some w ∧
             get type_id X s = (returned (wrapper_get this w), s)).
Proof.
  intros Hreach.
  destruct (reachable_container_ok_aux s Hreach) as [Hlive _].
  destruct (values s !! type_id X) as [[this|]|] eqn:Hk.
  - destruct (Hlive _ _ Hk) as [w Hw]. right. right. exists this, w.
    repeat split; try done. by apply get_populated.
  - right. left. split; [done|]. by apply get_empty.
  - left. split; [done|]. by apply get_undeclared.
Qed.

(** X3. A call of [set<T>] that returns or throws leaves every other slot
    as it was: for a type [U] with another identifier, [get<U>] gives after
    the call what it gave before. *)
Theorem set_leaves_other_slots T U arg s :
  reachable type_id s →
  type_id U ≠ type_id T →
  (set type_id T arg s).1 ≠ undefined →
  (get type_id U (set type_id T arg s).2).1 = (get type_id U s).1.
Proof.
  intros Hreach Hne Hdef.
  destruct (reachable_container_ok_aux s Hreach) as [Hlive Hdist].
  destruct (set type_id T arg s) as [[[]|e|] s'] eqn:Hrun; simpl in *; [| |done].
  - destruct (set_returned_shape T arg s s' Hrun) as (p & Hk & Hv & Hw).
    apply get_outcome_ext.
    + by rewrite Hv, lookup_insert_ne.
    + intros this Hthis. rewrite Hw.
      assert (this ≠ fresh (dom (wrappers s))) as Hfresh
        by (apply fresh_wrapper; by eapply Hlive).
      destruct p as [old|]; simpl.
      * rewrite lookup_delete_ne, lookup_insert_ne; [done..|].
        intros ->. by destruct Hne; apply (Hdist (type_id U) (type_id T) this).
      * by rewrite lookup_insert_ne.
  - destruct (set_thrown_frame type_id T arg s e s' Hrun) as [Hv Hw].
    apply get_outcome_ext; [by rewrite Hv|]. intros this _. by rewrite Hw.
Qed.

(** *** Borrowed pointers *)

(** X4. [set] with a non-null raw pointer, or with a reference, followed
    by [get] gives back the very address that was passed, whatever lives
    or does not live at that address. *)
Theorem set_pointer_get_roundtrip T arg (v : place) s p :
  values s !! type_id T = Some p →
  slot_ok s (type_id T) = true →
  arg = by_pointer_X (Some v) ∨ arg = by_reference v ∨ arg = by_pointer (Some v) →
  ∃ s', set type_id T arg s = (returned (), s') ∧
        get type_id T s' = (returned (Some v), s').
Proof.
  intros Hk Hok Harg.
  assert (arg_ok s arg = true) as Hargok
    by (by destruct Harg as [-> | [-> | ->]]).
  destruct (set_then_get type_id T arg s p Hk Hok Hargok)
    as (s' & this & Hrun & Hslot & Hnew & Hgot).
  exists s'. split; [done|]. rewrite Hgot.
  by destruct Harg as [-> | [-> | ->]].
Qed.


(** *** Ownership handed over with a [std::unique_ptr] *)

Lemma wrapper_dtor_use_count w s a :
  (∀ b, w = sptr_wrapper (Some b) → b ≠ a) →
  use_count (wrapper_dtor w s).2 !! a = use_count s !! a.
Proof.
  intros Hne. destruct w as [v|q|[b|]|[b|]]; simpl; try done.
  - unfold delete_object. by destruct (objs s !! b).
  - specialize (Hne b eq_refl).
    unfold shared_ptr_dtor, delete_object.
    unfold mbind, M_bind, bind, gets, modify, undef.
    destruct (use_count s !! b) as [[|[|n]]|]; simpl; try done.
    + destruct (objs s !! b); simpl; by rewrite lookup_delete_ne.
    + by rewrite lookup_insert_ne.
Qed.

Lemma install_use_count key w s p a :
  values s !! key = Some p →
  slot_ok s key = true →
  (∀ b, held s key = Some (sptr_wrapper (Some b)) → b ≠ a) →
  use_count (install key (inr w) s).2 !! a = use_count s !! a.
Proof.
  intros Hk Hok Hne. unfold install, new, reset.
  unfold mbind, M_bind, bind, modify, mret, M_ret, ret.
  set (this := fresh (dom (wrappers s))).
  rewrite (index_present key _ p) by done. simpl.
  destruct p as [old|]; [|done].
  unfold delete_wrapper, load. unfold mbind, M_bind, bind, modify.
  simpl. unfold held in Hne. unfold slot_ok in Hok. rewrite Hk in Hne, Hok.
  destruct (wrappers s !! old) as [w0|] eqn:Hold; [|done].
  assert (old ≠ this) as Hfresh by (apply fresh_wrapper; by rewrite Hold).
  rewrite lookup_insert_ne, Hold by done.
  pose proof (wrapper_dtor_use_count w0
    (with_values <[key := Some this]> (with_wrappers <[this := w]> s)) a) as Hdt.
  destruct (wrapper_dtor w0 _) as [[[]| |] s2]; simpl in *; apply Hdt;
    intros b ->; by apply Hne.
Qed.

Lemma lookup_foldr_delete_other {V} (m : gmap positive V) (l : list positive) a :
  a ∉ l → foldr delete m l !! a = m !! a.
Proof.
  induction l as [|b l IH]; [done|]. intros Hnot. simpl.
  apply not_elem_of_cons in Hnot as [Hne Hnot].
  rewrite lookup_delete_ne by done. by apply IH.
Qed.

(** What a successful [set] with a [std::unique_ptr] leaves behind. *)
Lemma set_uptr_facts T a v s p :
  values s !! type_id T = Some p →
  slot_ok s (type_id T) = true →
  arg_ok s (by_unique_ptr (Some a)) = true →
  objs s !! a = Some v →
  a ∉ from_option (freed s) [] (held s (type_id T)) →
  ∃ s' this, set type_id T (by_unique_ptr (Some a)) s = (returned (), s') ∧
             values s' !! type_id T = Some (Some this) ∧
             wrappers s' !! this = Some (sptr_wrapper (Some a)) ∧
             objs s' !! a = Some v ∧
             use_count s' !! a = Some 1 ∧
             get type_id T s' = (returned (Some (object a)), s').
Proof.
  intros Hk Hok Harg Ha Hnot.
  destruct (set_returns type_id T _ s p Hk Hok Harg) as (s' & Hrun & _ & _ & _ & Ho).
  destruct (set_then_get type_id T _ s p Hk Hok Harg)
    as (s'' & this & Hrun' & Hslot & Hnew & Hget).
  rewrite Hrun in Hrun'. injection Hrun' as <-.
  exists s', this. repeat split; try done.
  - rewrite Ho, lookup_foldr_delete_other; done.
  - simpl in Harg. apply andb_true_iff in Harg as [_ Hnone%bool_decide_eq_true].
    set (s1 := with_use_count <[a := 1]> s).
    assert (slot_ok s1 (type_id T) = true ∧ held s1 (type_id T) = held s (type_id T))
      as [Hok1 Hheld].
    { unfold slot_ok, held in *. simpl. rewrite Hk in *.
      destruct p as [old|]; [|done].
      destruct (wrappers s !! old) as [w0|]; [|done].
      split; [|done]. by apply control_block_frame. }
    assert (set type_id T (by_unique_ptr (Some a)) s
            = install (type_id T) (inr (sptr_wrapper (Some a))) s1) as Heq.
    { destruct (install_returns (type_id T) (sptr_wrapper (Some a)) s1 p Hk Hok1)
        as (s2 & Hinst & _).
      rewrite Hinst. simpl. unfold set_uptr. apply unwinding_returned.
      unfold mbind, M_bind, bind at 1.
      rewrite verify_type_declared by (by rewrite Hk). exact Hinst. }
    rewrite Heq in Hrun.
    replace s' with (install (type_id T) (inr (sptr_wrapper (Some a))) s1).2
      by (by rewrite Hrun).
    assert (∀ b, held s1 (type_id T) = Some (sptr_wrapper (Some b)) → b ≠ a) as Hb.
    { rewrite Hheld. intros b Hb ->. unfold slot_ok, held in *. rewrite Hk in *.
      destruct p as [old|]; [|done]. rewrite Hb in Hok. simpl in Hok.
      rewrite Hnone in Hok. by apply andb_true_iff in Hok as [_ ?]. }
    rewrite (install_use_count _ _ s1 p a Hk Hok1 Hb).
    simpl. by rewrite lookup_insert_eq.
Qed.

(** X6. After [set] with a non-empty [std::unique_ptr], the object it owned
    is still alive with its value, the container is its only owner, and
    [get] returns its address: ownership moved, nothing was copied. *)
Theorem set_unique_ptr_get_roundtrip T a v s p :
  values s !! type_id T = Some p →
  slot_ok s (type_id T) = true →
  arg_ok s (by_unique_ptr (Some a)) = true →
  objs s !! a = Some v →
  a ∉ from_option (freed s) [] (held s (type_id T)) →
  ∃ s', set type_id T (by_unique_ptr (Some a)) s = (returned (), s') ∧
        get type_id T s' = (returned (Some (object a)), s') ∧
        deref s' (Some (object a)) = Some v ∧
        use_count s' !! a = Some 1.
Proof.
  intros Hk Hok Harg Ha Hnot.
  destruct (set_uptr_facts T a v s p Hk Hok Harg Ha Hnot)
    as (s' & this & Hrun & _ & _ & Ho & Hc & Hget).
  exists s'. by repeat split.
Qed.


(** X8. A [std::unique_ptr] passed for a type that is not declared is lost:
    [set] throws, stores nothing, and the object the pointer owned is
    destroyed with the parameter. *)
Theorem set_unique_ptr_undeclared_consumes T a v s :
  values s !! type_id T = None →
  objs s !! a = Some v →
  ∃ s', set type_id T (by_unique_ptr (Some a)) s
          = (thrown (invalid_argument "Type specified is not a need!"), s') ∧
        values s' = values s ∧ wrappers s' = wrappers s ∧
        objs s' !! a = None ∧
        destroyed s' = (destroyed s ++ [v])%list.
Proof.
  intros Hk Ha. eexists. split; [by apply set_uptr_undeclared|].
  simpl. repeat split. apply lookup_delete_eq.
Qed.

(** X9. On a declared type, a null raw pointer and an empty
    [std::unique_ptr] are refused with the [std::invalid_argument] of the
    wrapper's constructor, and the memory, the slot's wrapper with it, is
    left exactly as it was. The empty [std::unique_ptr] is reported as a
    null shared pointer. *)
Theorem set_null_argument_rejected T s :
  is_Some (values s !! type_id T) →
  set type_id T (by_pointer_X nullptr) s
    = (thrown (invalid_argument "Null raw pointer!"), s) ∧
  set type_id T (by_pointer nullptr) s
    = (thrown (invalid_argument "Null raw pointer!"), s) ∧
  set type_id T (by_unique_ptr None) s
    = (thrown (invalid_argument "Null shared pointer!"), s).
Proof. apply set_null_throws. Qed.

(** X10. The constructor does not depend on the order of the declared
    types nor on repetitions among them: two lists with the same types
    build the same container. *)
Theorem needs_ctor_order_irrelevant (Needs1 Needs2 : list ctype) s :
  (∀ T, T ∈ Needs1 ↔ T ∈ Needs2) →
  needs_ctor type_id Needs1 s = needs_ctor type_id Needs2 s.
Proof.
  intros Hsame. rewrite !needs_ctor_returns.
  assert (empty_slots (type_id <$> Needs1) = empty_slots (type_id <$> Needs2)) as Heq.
  { apply map_eq. intros key. rewrite !empty_slots_lookup.
    assert (key ∈ type_id <$> Needs1 ↔ key ∈ type_id <$> Needs2) as Hiff.
    { rewrite !list_elem_of_fmap. split; intros (T & -> & HT); exists T;
        split; try done; by apply Hsame. }
    destruct (decide (key ∈ type_id <$> Needs1)) as [Hin|Hin];
      destruct (decide (key ∈ type_id <$> Needs2)) as [Hin'|Hin']; try done.
    - destruct Hin'. by apply Hiff.
    - destruct Hin. by apply Hiff. }
  by rewrite Heq.
Qed.

(** X11. A borrowed pointer can dangle. When one slot borrows the object
    another slot owns (as its only owner), replacing the owner destroys
    the object; [get] on the borrowing slot still returns the address,
    which now designates nothing. *)
Theorem borrowed_pointer_can_dangle T U arg a v s this_T this_U :
  type_id U ≠ type_id T →
  values s !! type_id T = Some (Some this_T) →
  wrappers s !! this_T = Some (sptr_wrapper (Some a)) →
  use_count s !! a = Some 1 →
  objs s !! a = Some v →
  values s !! type_id U = Some (Some this_U) →
  wrappers s !! this_U = Some (ptr_wrapper (Some (object a))) →
  arg_ok s arg = true →
  ∃ s', get type_id U s = (returned (Some (object a)), s) ∧
        deref s (Some (object a)) = Some v ∧
        set type_id T arg s = (returned (), s') ∧
        get type_id U s' = (returned (Some (object a)), s') ∧
        deref s' (Some (object a)) = None.
Proof.
  intros Hne HT HwT Hc Ha HU HwU Harg.
  assert (slot_ok s (type_id T) = true) as Hok.
  { unfold slot_ok. rewrite HT, HwT. simpl. rewrite Ha, Hc.
    by rewrite bool_decide_eq_true_2. }
  assert (held s (type_id T) = Some (sptr_wrapper (Some a))) as Hheld
    by (unfold held; by rewrite HT).
  destruct (set_returns type_id T arg s _ HT Hok Harg) as (s' & Hrun & Hv & Hw & _ & Ho).
  rewrite Hheld in Ho. simpl in Ho, Hw. rewrite Hc in Ho. simpl in Ho.
  assert (this_U ≠ this_T) as Hdiff by (intros ->; by rewrite HwT in HwU).
  assert (this_U ≠ fresh (dom (wrappers s))) as Hfresh
    by (apply fresh_wrapper; by rewrite HwU).
  exists s'. repeat split; try done.
  - by rewrite (get_populated type_id U s this_U (ptr_wrapper (Some (object a)))).
  - rewrite (get_populated type_id U s' this_U (ptr_wrapper (Some (object a)))); [done| |].
    + by rewrite Hv, lookup_insert_ne.
    + by rewrite Hw, lookup_delete_ne, lookup_insert_ne.
  - simpl. rewrite Ho. apply lookup_delete_eq.
Qed.

(** One step of a program: a [set] by value, pointer or reference, with
    what the next step needs. *)
Lemma set_step T arg s p :
  values s !! type_id T = Some p →
  slot_ok s (type_id T) = true →
  arg_ok s arg = true →
  (∀ u, arg ≠ by_unique_ptr u) →
  ∃ s' this, set type_id T arg s = (returned (), s') ∧
             values s' = <[type_id T := Some this]> (values s) ∧
             wrappers s' !! this = Some (installed arg) ∧
             slot_ok s' (type_id T) = true ∧
             get type_id T s' = (returned (wrapper_get this (installed arg)), s') ∧
             objs s' =
               foldr delete (objs s) (from_option (freed s) [] (held s (type_id T))).
Proof.
  intros Hk Hok Harg Hne.
  destruct (set_returns type_id T arg s p Hk Hok Harg) as (s' & Hrun & Hv & _ & _ & Ho).
  destruct (set_then_get type_id T arg s p Hk Hok Harg)
    as (s'' & this & Hrun' & Hslot & Hnew & Hget).
  rewrite Hrun in Hrun'. injection Hrun' as <-.
  assert (this = fresh (dom (wrappers s))) as ->
    by (rewrite Hv, lookup_insert_eq in Hslot; congruence).
  exists s', (fresh (dom (wrappers s))). repeat split; try done.
  replace s' with (set type_id T arg s).2 by (by rewrite Hrun).
  by eapply set_slot_ok.
Qed.

(** *** Destroying the container *)

Lemma NoDup_omap_inj {A B} (f : A → option B) (l : list A) :
  NoDup l →
  (∀ x y z, x ∈ l → y ∈ l → f x = Some z → f y = Some z → x = y) →
  NoDup (omap f l).
Proof.
  induction 1 as [|x l Hx Hnd IH]; intros Hinj; simpl; [constructor|].
  assert (NoDup (omap f l)) as Hrec.
  { apply IH. intros y1 y2 z Hy1 Hy2. apply Hinj; by apply list_elem_of_further. }
  destruct (f x) as [z|] eqn:Hfx; [|done].
  constructor; [|done].
  intros (y & Hy & Hfy)%list_elem_of_omap. destruct Hx.
  rewrite (Hinj x y z); try done; [apply list_elem_of_here|by apply list_elem_of_further].
Qed.

Lemma needs_dtor_loop (l : list (size_t * option positive)) s :
  NoDup (omap snd l) →
  (∀ o, o ∈ omap snd l →
        ∃ w, wrappers s !! o = Some w ∧ (variant w = Inline ∨ variant w = Borrowed)) →
  ∃ s', foldr (λ slot (rest : M impl unit),
                 match slot.2 with
                 | Some o => delete_wrapper o
                 | None => ret ()
                 end;; rest)
              (modify (with_values (λ _, ∅))) l s = (returned (), s') ∧
        values s' = ∅ ∧ objs s' = objs s ∧
        (∀ x, wrappers s' !! x
              = if decide (x ∈ omap snd l) then None else wrappers s !! x) ∧
        (∀ v, v ∈ destroyed s → v ∈ destroyed s') ∧
        (∀ o v, o ∈ omap snd l → wrappers s !! o = Some (value_wrapper v) →
                v ∈ destroyed s').
Proof.
  revert s. induction l as [|[key [o|]] l IH]; intros s Hnd Hlive.
  - eexists. split; [reflexivity|]. repeat split; try done.
    intros o v Ho. by apply elem_of_nil in Ho.
  - simpl in Hnd, Hlive. apply NoDup_cons in Hnd as [Ho Hnd].
    destruct (Hlive o (list_elem_of_here _ _)) as (w & Hw & Hkind).
    assert (∃ s1, delete_wrapper o s = (returned (), s1) ∧
                  values s1 = values s ∧ objs s1 = objs s ∧
                  wrappers s1 = delete o (wrappers s) ∧
                  (∀ v, v ∈ destroyed s → v ∈ destroyed s1) ∧
                  (∀ v, w = value_wrapper v → v ∈ destroyed s1))
      as (s1 & Hrun & Hv1 & Ho1 & Hw1 & Hd1 & Hd1').
    { unfold delete_wrapper, load. unfold mbind, M_bind, bind, modify. rewrite Hw.
      destruct w as [v|q|u|u]; simpl in *; try (by destruct Hkind);
        (eexists; split; [reflexivity|]); simpl; repeat split; try done.
      - intros v' Hv'. apply elem_of_app. by left.
      - intros v' [= <-]. apply elem_of_app. right. apply list_elem_of_here. }
    destruct (IH s1 Hnd) as (s' & Hrest & Hv' & Ho' & Hw' & Hd' & Hd'').
    { intros o' Ho'. destruct (Hlive o' (list_elem_of_further _ _ _ Ho'))
        as (w' & Hw' & Hkind'). exists w'. split; [|done].
      rewrite Hw1, lookup_delete_ne; [done|]. by intros ->. }
    exists s'. split.
    { cbn [foldr snd]. unfold mbind, M_bind, bind at 1. by rewrite Hrun. }
    repeat split; try done.
    + congruence.
    + intros x. rewrite Hw', Hw1.
      replace (omap snd ((key, Some o) :: l)) with (o :: omap snd l) by done.
      destruct (decide (x ∈ omap snd l)) as [Hin|Hin];
        destruct (decide (x ∈ o :: omap snd l)) as [Hin'|Hin']; try done.
      * destruct Hin'. by apply list_elem_of_further.
      * apply elem_of_cons in Hin' as [->|?]; [|done]. apply lookup_delete_eq.
      * rewrite lookup_delete_ne; [done|]. intros ->. apply Hin', list_elem_of_here.
    + auto.
    + replace (omap snd ((key, Some o) :: l)) with (o :: omap snd l) by done.
      intros o' v [->|Hin]%elem_of_cons Hv.
      * apply Hd'. apply Hd1'. congruence.
      * apply (Hd'' o' v Hin). rewrite Hw1, lookup_delete_ne; [done|]. by intros ->.
  - simpl in Hnd, Hlive. destruct (IH s Hnd Hlive) as (s' & Hrest & Hpost).
    exists s'. split; [|done]. simpl. exact Hrest.
Qed.

(** X15. When the container goes out of scope, with slots that were set by
    value, pointer or reference, its destructor frees every wrapper the
    slots hold and empties the map; the values stored inline are
    destroyed, while the objects that were only borrowed stay alive. *)
Theorem needs_dtor_frees_wrappers s :
  container_ok s →
  (∀ key this w, values s !! key = Some (Some this) → wrappers s !! this = Some w →
                 variant w = Inline ∨ variant w = Borrowed) →
  ∃ s', needs_dtor s = (returned (), s') ∧
        values s' = ∅ ∧
        objs s' = objs s ∧
        (∀ key this, values s !! key = Some (Some this) → wrappers s' !! this = None) ∧
        (∀ key this v, values s !! key = Some (Some this) →
                       wrappers s !! this = Some (value_wrapper v) →
                       v ∈ destroyed s').
Proof.
  intros [Hlive Hdist] Hkind.
  assert (∀ o, o ∈ omap snd (map_to_list (values s)) ↔
               ∃ key, values s !! key = Some (Some o)) as Hin.
  { intros o. rewrite list_elem_of_omap. split.
    - intros ([key p] & Hkp%elem_of_map_to_list & Hp). simpl in Hp. subst p. eauto.
    - intros [key Hkey]. exists (key, Some o). split; [|done].
      by apply elem_of_map_to_list. }
  destruct (needs_dtor_loop (map_to_list (values s)) s)
    as (s' & Hrun & Hv & Ho & Hw & _ & Hd).
  - apply NoDup_omap_inj; [apply NoDup_map_to_list|].
    intros [k1 p1] [k2 p2] o Hk1%elem_of_map_to_list Hk2%elem_of_map_to_list.
    simpl. intros -> ->. f_equal. by apply (Hdist k1 k2 o).
  - intros o [key Hkey]%Hin. destruct (Hlive key o Hkey) as [w Hw].
    exists w. split; [done|]. by apply (Hkind key o).
  - exists s'. split; [exact Hrun|]. repeat split; try done.
    + intros key this Hkey. rewrite Hw, decide_True; [done|]. apply Hin. eauto.
    + intros key this v Hkey Hthis. apply (Hd this v); [|done]. apply Hin. eauto.
Qed.

End Container.

(** ** The sample program, checked *)

Section ProgramProperties.

Import Demo Program.

Variable type_id : type_name → size_t.

Lemma lift_returned {A B} (m : M object_value A) (k : A → IO B) s out a s' :
  m s = (returned a, s') →
  (lift m ≫= k) (World s out) = k a (World s' out).
Proof.
  intros Hm. unfold mbind, IO_bind, io_bind, lift. simpl. by rewrite Hm.
Qed.

Lemma lift_thrown {A B} (m : M object_value A) (k : A → IO B) s out e s' :
  m s = (thrown e, s') →
  (lift m ≫= k) (World s out) = (thrown e, World s' out).
Proof.
  intros Hm. unfold mbind, IO_bind, io_bind, lift. simpl. by rewrite Hm.
Qed.

Lemma A_print_writes s out p suffix :
  get type_id IPrint s = (returned p, s) →
  deref s p = Some (print_hello suffix) →
  A_print type_id (World s out)
    = (returned (), World s (((out ++ "Hello ") ++ suffix) ++ endl)).
Proof.
  intros Hget Hp. unfold A_print.
  rewrite (lift_returned _ _ s out p s) by done.
  unfold IPrint_print. simpl. by rewrite Hp.
Qed.

(** X12. After [a.set<IPrint>(PrintHello(suffix))], [a.print()] writes
    "Hello ", the suffix and a newline to [std::cout], and changes
    nothing else. *)
Theorem print_after_set_value suffix s out p :
  values s !! type_id IPrint = Some p →
  slot_ok s (type_id IPrint) = true →
  ∃ s', set type_id IPrint (by_value (PrintHello_ctor suffix)) s = (returned (), s') ∧
        A_print type_id (World s' out)
          = (returned (), World s' (((out ++ "Hello ") ++ suffix) ++ endl)).
Proof.
  intros Hk Hok.
  destruct (set_step type_id IPrint (by_value (PrintHello_ctor suffix)) s p Hk Hok)
    as (s' & this & Hrun & _ & Hnew & _ & Hget & _); [done..|].
  exists s'. split; [done|].
  apply (A_print_writes s' out _ suffix Hget). simpl. by rewrite Hnew.
Qed.

Lemma A_quack_unset w :
  values (memory w) !! type_id IDuck = Some None →
  A_quack type_id w = (thrown (runtime_error "Need type never set!"), w).
Proof.
  intros Hk. unfold A_quack. destruct w as [s out]. simpl in Hk.
  by rewrite (lift_thrown _ _ s out (runtime_error "Need type never set!") s)
    by (by apply get_empty).
Qed.

(** X13. [a.quack()] on a container whose [IDuck] slot was never set
    throws the [std::runtime_error] of [get] and writes nothing. *)
Theorem quack_unset_throws w :
  values (memory w) !! type_id IDuck = Some None →
  A_quack type_id w = (thrown (runtime_error "Need type never set!"), w).
Proof. apply A_quack_unset. Qed.

Lemma io_returned {A B} (m : IO A) (k : A → IO B) w a w' :
  m w = (returned a, w') → (m ≫= k) w = k a w'.
Proof. intros Hm. unfold mbind, IO_bind, io_bind. by rewrite Hm. Qed.

Lemma io_thrown {A B} (m : IO A) (k : A → IO B) w e w' :
  m w = (thrown e, w') → (m ≫= k) w = (thrown e, w').
Proof. intros Hm. unfold mbind, IO_bind, io_bind. by rewrite Hm. Qed.

Lemma local_eq v s out :
  local v (World s out)
    = (returned (fresh (dom (objs s))),
       World (with_objs <[fresh (dom (objs s)) := v]> s) out).
Proof. reflexivity. Qed.

Lemma string_app_assoc (a b c : string) : (a ++ b) ++ c = a ++ (b ++ c).
Proof.
  induction a as [|x a IH]; [done|].
  change (String x ((a ++ b) ++ c) = String x (a ++ (b ++ c))). by rewrite IH.
Qed.

(** X14. [main] never reaches [return 0]: when [IPrint] and [IDuck] have
    different identifiers, it writes the three greetings and then
    [a.quack()] throws "Need type never set!", which nothing catches,
    because no [IDuck] is ever set. *)
Theorem main_ends_at_quack w :
  type_id IPrint ≠ type_id IDuck →
  ∃ s', main type_id w =
          (thrown (runtime_error "Need type never set!"),
           World s' (stdout w ++ "Hello someone" ++ endl ++ "Hello X" ++ endl
                              ++ "Hello World!" ++ endl)).
Proof.
  intros Hne. destruct w as [s0 out]. unfold main. simpl stdout.
  (* A a; *)
  rewrite (lift_returned _ _ _ _ () _ (needs_ctor_returns type_id A_needs s0)).
  set (s1 := with_values _ s0).
  assert (values s1 !! type_id IPrint = Some None) as Hk1.
  { simpl. rewrite empty_slots_lookup, decide_True; [done|]. apply list_elem_of_here. }
  assert (values s1 !! type_id IDuck = Some None) as Hd1.
  { simpl. rewrite empty_slots_lookup, decide_True; [done|].
    apply list_elem_of_further, list_elem_of_here. }
  assert (slot_ok s1 (type_id IPrint) = true) as Hok1
    by (unfold slot_ok; by rewrite Hk1).
  (* a.set<IPrint>(PrintHello("someone")); a.print(); *)
  destruct (set_step type_id IPrint (by_value (PrintHello_ctor "someone")) s1 _ Hk1 Hok1)
    as (s2 & this2 & Hrun2 & Hv2 & Hn2 & Hok2 & Hget2 & _); [done..|].
  rewrite (lift_returned _ _ _ _ () s2 Hrun2).
  rewrite (io_returned _ _ _ () _ (A_print_writes s2 out _ "someone" Hget2
             ltac:(simpl; by rewrite Hn2))).
  assert (values s2 !! type_id IPrint = Some (Some this2)) as Hk2
    by (by rewrite Hv2, lookup_insert_eq).
  (* a.set<IPrint>(PrintHello("X")); a.print(); *)
  destruct (set_step type_id IPrint (by_value (PrintHello_ctor "X")) s2 _ Hk2 Hok2)
    as (s3 & this3 & Hrun3 & Hv3 & Hn3 & Hok3 & Hget3 & _); [done..|].
  rewrite (lift_returned _ _ _ _ () s3 Hrun3).
  rewrite (io_returned _ _ _ () _ (A_print_writes s3 _ _ "X" Hget3
             ltac:(simpl; by rewrite Hn3))).
  assert (values s3 !! type_id IPrint = Some (Some this3)) as Hk3
    by (by rewrite Hv3, lookup_insert_eq).
  (* PrintHello ph("World!"); *)
  rewrite (io_returned _ _ _ _ _ (local_eq _ _ _)).
  set (ph := fresh (dom (objs s3))).
  set (s3' := with_objs <[ph := PrintHello_ctor "World!"]> s3).
  assert (slot_ok s3' (type_id IPrint) = true) as Hok3'
    by (unfold slot_ok; simpl; by rewrite Hk3, Hn3).
  assert (held s3' (type_id IPrint) = Some (value_wrapper (PrintHello_ctor "X")))
    as Hheld by (unfold held; simpl; by rewrite Hk3, Hn3).
  (* a.set<IPrint, PrintHello>(&ph); a.print(); *)
  destruct (set_step type_id IPrint (by_pointer_X (Some (object ph))) s3' _ Hk3 Hok3')
    as (s4 & this4 & Hrun4 & Hv4 & Hn4 & Hok4 & Hget4 & Ho4); [done..|].
  rewrite (lift_returned _ _ _ _ () s4 Hrun4).
  rewrite Hheld in Ho4. simpl in Ho4.
  rewrite (io_returned _ _ _ () _ (A_print_writes s4 _ _ "World!" Hget4
             ltac:(simpl; by rewrite Ho4, lookup_insert_eq))).
  (* a.quack(); *)
  assert (values s4 !! type_id IDuck = Some None) as Hd4.
  { rewrite Hv4. simpl. rewrite Hv3, Hv2.
    by rewrite !lookup_insert_ne. }
  rewrite (io_thrown _ _ _ _ _ (A_quack_unset (World s4 _) Hd4)).
  exists s4. f_equal. f_equal.
  by rewrite !string_app_assoc.
Qed.

End ProgramProperties.

(** ** The further properties on the sample program *)

Lemma demo_reachable : reachable Demo.type_id Demo.a_set_someone.
Proof.
  apply (reach_set Demo.type_id Demo.IPrint
           (by_value (Demo.print_hello "someone")) Demo.a_constructed).
  - apply reach_ctor.
  - by vm_compute.
Qed.

Lemma reachable_container_ok_witness :
  reachable Demo.type_id Demo.a_set_someone ∧ container_ok Demo.a_set_someone.
Proof.
  split; [exact demo_reachable|].
  exact (reachable_container_ok Demo.type_id Demo.a_set_someone demo_reachable).
Defined.

Lemma get_on_reachable_witness :
  reachable Demo.type_id Demo.a_set_someone ∧
  ((values Demo.a_set_someone !! Demo.type_id Demo.IDuck = None ∧
    get Demo.type_id Demo.IDuck Demo.a_set_someone
      = (thrown (invalid_argument "Type specified is not a need!"),
         Demo.a_set_someone)) ∨
   (values Demo.a_set_someone !! Demo.type_id Demo.IDuck = Some None ∧
    get Demo.type_id Demo.IDuck Demo.a_set_someone
      = (thrown (runtime_error "Need type never set!"), Demo.a_set_someone)) ∨
   (∃ this w, values Demo.a_set_someone !! Demo.type_id Demo.IDuck = Some (Some this) ∧
              wrappers Demo.a_set_someone !! this = Some w ∧
              get Demo.type_id Demo.IDuck Demo.a_set_someone
                = (returned (wrapper_get this w), Demo.a_set_someone))).
Proof.
  split; [exact demo_reachable|].
  exact (get_on_reachable Demo.type_id Demo.IDuck Demo.a_set_someone demo_reachable).
Defined.

Lemma set_leaves_other_slots_witness :
  reachable Demo.type_id Demo.a_set_someone ∧
  Demo.type_id Demo.IDuck ≠ Demo.type_id Demo.IPrint ∧
  (set Demo.type_id Demo.IPrint (by_value (Demo.print_hello "X"))
     Demo.a_set_someone).1 ≠ undefined ∧
  (get Demo.type_id Demo.IDuck
     (set Demo.type_id Demo.IPrint (by_value (Demo.print_hello "X"))
        Demo.a_set_someone).2).1
    = (get Demo.type_id Demo.IDuck Demo.a_set_someone).1.
Proof.
  assert (Demo.type_id Demo.IDuck ≠ Demo.type_id Demo.IPrint) as Hne by (by vm_compute).
  assert ((set Demo.type_id Demo.IPrint (by_value (Demo.print_hello "X"))
             Demo.a_set_someone).1 ≠ undefined) as Hdef by (by vm_compute).
  split; [exact demo_reachable|]. split; [exact Hne|]. split; [exact Hdef|].
  exact (set_leaves_other_slots Demo.type_id Demo.IPrint Demo.IDuck
           (by_value (Demo.print_hello "X")) Demo.a_set_someone
           demo_reachable Hne Hdef).
Defined.

Lemma set_pointer_get_roundtrip_witness :
  values Demo.a_set_someone !! Demo.type_id Demo.IPrint = Some (Some 1%positive) ∧
  slot_ok Demo.a_set_someone (Demo.type_id Demo.IPrint) = true ∧
  ∃ s', set Demo.type_id Demo.IPrint (by_pointer_X (Some (object 1)))
          Demo.a_set_someone = (returned (), s') ∧
        get Demo.type_id Demo.IPrint s' = (returned (Some (object 1)), s').
Proof.
  split; [vm_compute; reflexivity|]. split; [vm_compute; reflexivity|].
  apply (set_pointer_get_roundtrip Demo.type_id Demo.IPrint
           (by_pointer_X (Some (object 1))) (object 1) Demo.a_set_someone
           (Some 1%positive)); [vm_compute; reflexivity..|by left].
Defined.


Lemma set_unique_ptr_get_roundtrip_witness :
  values Demo.a_set_someone !! Demo.type_id Demo.IPrint = Some (Some 1%positive) ∧
  slot_ok Demo.a_set_someone (Demo.type_id Demo.IPrint) = true ∧
  arg_ok Demo.a_set_someone (by_unique_ptr (Some 2%positive)) = true ∧
  objs Demo.a_set_someone !! 2%positive = Some (Demo.print_hello "World!") ∧
  ∃ s', set Demo.type_id Demo.IPrint (by_unique_ptr (Some 2%positive))
          Demo.a_set_someone = (returned (), s') ∧
        get Demo.type_id Demo.IPrint s' = (returned (Some (object 2)), s') ∧
        deref s' (Some (object 2)) = Some (Demo.print_hello "World!") ∧
        use_count s' !! 2%positive = Some 1.
Proof.
  split; [vm_compute; reflexivity|]. split; [vm_compute; reflexivity|].
  split; [vm_compute; reflexivity|]. split; [vm_compute; reflexivity|].
  apply (set_unique_ptr_get_roundtrip Demo.type_id Demo.IPrint 2%positive
           (Demo.print_hello "World!") Demo.a_set_someone (Some 1%positive));
    [vm_compute; reflexivity..|].
  vm_compute. apply not_elem_of_nil.
Defined.


Lemma set_unique_ptr_undeclared_consumes_witness :
  values Demo.a_set_someone !! Demo.type_id Demo.PrintHello = None ∧
  objs Demo.a_set_someone !! 2%positive = Some (Demo.print_hello "World!") ∧
  ∃ s', set Demo.type_id Demo.PrintHello (by_unique_ptr (Some 2%positive))
          Demo.a_set_someone
          = (thrown (invalid_argument "Type specified is not a need!"), s') ∧
        values s' = values Demo.a_set_someone ∧
        wrappers s' = wrappers Demo.a_set_someone ∧
        objs s' !! 2%positive = None ∧
        destroyed s' = (destroyed Demo.a_set_someone ++ [Demo.print_hello "World!"])%list.
Proof.
  split; [vm_compute; reflexivity|]. split; [vm_compute; reflexivity|].
  apply (set_unique_ptr_undeclared_consumes Demo.type_id Demo.PrintHello 2%positive
           (Demo.print_hello "World!") Demo.a_set_someone);
    vm_compute; reflexivity.
Defined.

Lemma set_null_argument_rejected_witness :
  is_Some (values Demo.a_set_someone !! Demo.type_id Demo.IPrint) ∧
  set Demo.type_id Demo.IPrint (by_pointer_X nullptr) Demo.a_set_someone
    = (thrown (invalid_argument "Null raw pointer!"), Demo.a_set_someone) ∧
  set Demo.type_id Demo.IPrint (by_pointer nullptr) Demo.a_set_someone
    = (thrown (invalid_argument "Null raw pointer!"), Demo.a_set_someone) ∧
  set Demo.type_id Demo.IPrint (by_unique_ptr None) Demo.a_set_someone
    = (thrown (invalid_argument "Null shared pointer!"), Demo.a_set_someone).
Proof.
  assert (is_Some (values Demo.a_set_someone !! Demo.type_id Demo.IPrint)) as Hk
    by (eexists; vm_compute; reflexivity).
  split; [exact Hk|].
  exact (set_null_argument_rejected Demo.type_id Demo.IPrint Demo.a_set_someone Hk).
Defined.

Lemma needs_ctor_order_irrelevant_witness :
  (∀ T, T ∈ [Demo.IPrint; Demo.IDuck] ↔ T ∈ [Demo.IDuck; Demo.IPrint; Demo.IDuck]) ∧
  needs_ctor Demo.type_id [Demo.IPrint; Demo.IDuck] Demo.main_memory
    = needs_ctor Demo.type_id [Demo.IDuck; Demo.IPrint; Demo.IDuck] Demo.main_memory.
Proof.
  assert (∀ T, T ∈ [Demo.IPrint; Demo.IDuck]
               ↔ T ∈ [Demo.IDuck; Demo.IPrint; Demo.IDuck]) as Hsame.
  { intros T. rewrite !elem_of_cons, !elem_of_nil. tauto. }
  split; [exact Hsame|].
  exact (needs_ctor_order_irrelevant Demo.type_id _ _ Demo.main_memory Hsame).
Defined.

Lemma borrowed_pointer_can_dangle_witness :
  Demo.type_id Demo.PrintHello ≠ Demo.type_id Demo.IPrint ∧
  values Demo.owner_and_borrower !! Demo.type_id Demo.IPrint = Some (Some 1%positive) ∧
  wrappers Demo.owner_and_borrower !! 1%positive = Some (sptr_wrapper (Some 2%positive)) ∧
  use_count Demo.owner_and_borrower !! 2%positive = Some 1 ∧
  objs Demo.owner_and_borrower !! 2%positive = Some (Demo.print_hello "World!") ∧
  values Demo.owner_and_borrower !! Demo.type_id Demo.PrintHello
    = Some (Some 2%positive) ∧
  wrappers Demo.owner_and_borrower !! 2%positive
    = Some (ptr_wrapper (Some (object 2))) ∧
  arg_ok Demo.owner_and_borrower (by_value (Demo.print_hello "X")) = true ∧
  ∃ s', get Demo.type_id Demo.PrintHello Demo.owner_and_borrower
          = (returned (Some (object 2)), Demo.owner_and_borrower) ∧
        deref Demo.owner_and_borrower (Some (object 2))
          = Some (Demo.print_hello "World!") ∧
        set Demo.type_id Demo.IPrint (by_value (Demo.print_hello "X"))
          Demo.owner_and_borrower = (returned (), s') ∧
        get Demo.type_id Demo.PrintHello s' = (returned (Some (object 2)), s') ∧
        deref s' (Some (object 2)) = None.
Proof.
  assert (Demo.type_id Demo.PrintHello ≠ Demo.type_id Demo.IPrint) as Hne
    by (by vm_compute).
  split; [exact Hne|].
  do 6 (split; [vm_compute; reflexivity|]).
  split; [reflexivity|].
  apply (borrowed_pointer_can_dangle Demo.type_id Demo.IPrint Demo.PrintHello
           (by_value (Demo.print_hello "X")) 2%positive (Demo.print_hello "World!")
           Demo.owner_and_borrower 1%positive 2%positive Hne);
    vm_compute; reflexivity.
Defined.

Lemma print_after_set_value_witness :
  values Demo.a_constructed !! Demo.type_id Demo.IPrint = Some None ∧
  slot_ok Demo.a_constructed (Demo.type_id Demo.IPrint) = true ∧
  ∃ s', set Demo.type_id Demo.IPrint (by_value (Program.PrintHello_ctor "someone"))
          Demo.a_constructed = (returned (), s') ∧
        Program.A_print Demo.type_id (Program.World s' "")
          = (returned (),
             Program.World s' ((("" ++ "Hello ") ++ "someone") ++ Program.endl)).
Proof.
  split; [vm_compute; reflexivity|]. split; [vm_compute; reflexivity|].
  apply (print_after_set_value Demo.type_id "someone" Demo.a_constructed "" None);
    vm_compute; reflexivity.
Defined.

Lemma quack_unset_throws_witness :
  values (Program.memory (Program.World Demo.a_set_someone ""))
    !! Demo.type_id Demo.IDuck = Some None ∧
  Program.A_quack Demo.type_id (Program.World Demo.a_set_someone "")
    = (thrown (runtime_error "Need type never set!"),
       Program.World Demo.a_set_someone "").
Proof.
  assert (values (Program.memory (Program.World Demo.a_set_someone ""))
            !! Demo.type_id Demo.IDuck = Some None) as Hk
    by (vm_compute; reflexivity).
  split; [exact Hk|].
  exact (quack_unset_throws Demo.type_id (Program.World Demo.a_set_someone "") Hk).
Defined.

Lemma main_ends_at_quack_witness :
  Demo.type_id Demo.IPrint ≠ Demo.type_id Demo.IDuck ∧
  ∃ s', Program.main Demo.type_id (Program.World Demo.main_memory "")
          = (thrown (runtime_error "Need type never set!"),
             Program.World s'
               ("" ++ "Hello someone" ++ Program.endl ++ "Hello X" ++ Program.endl
                   ++ "Hello World!" ++ Program.endl)).
Proof.
  assert (Demo.type_id Demo.IPrint ≠ Demo.type_id Demo.IDuck) as Hne
    by (by vm_compute).
  split; [exact Hne|].
  exact (main_ends_at_quack Demo.type_id (Program.World Demo.main_memory "") Hne).
Defined.

Lemma needs_dtor_frees_wrappers_witness :
  container_ok Demo.a_set_someone ∧
  (∀ key this w,
     values Demo.a_set_someone !! key = Some (Some this) →
     wrappers Demo.a_set_someone !! this = Some w →
     variant w = Inline ∨ variant w = Borrowed) ∧
  ∃ s', needs_dtor Demo.a_set_someone = (returned (), s') ∧
        values s' = ∅ ∧
        objs s' = objs Demo.a_set_someone ∧
        (∀ key this, values Demo.a_set_someone !! key = Some (Some this) →
                     wrappers s' !! this = None) ∧
        (∀ key this v, values Demo.a_set_someone !! key = Some (Some this) →
                       wrappers Demo.a_set_someone !! this = Some (value_wrapper v) →
                       v ∈ destroyed s').
Proof.
  assert (container_ok Demo.a_set_someone) as Hok
    by exact (reachable_container_ok_aux Demo.type_id _ demo_reachable).
  assert (∀ key this w,
            values Demo.a_set_someone !! key = Some (Some this) →
            wrappers Demo.a_set_someone !! this = Some w →
            variant w = Inline ∨ variant w = Borrowed) as Hkind.
  { intros key this w _.
    replace (wrappers Demo.a_set_someone)
      with ({[ 1%positive := value_wrapper (Demo.print_hello "someone") ]}
              : gmap positive (wrapper Demo.object_value))
      by (vm_compute; reflexivity).
    intros [_ <-]%lookup_singleton_Some. by left. }
  split; [exact Hok|]. split; [exact Hkind|].
  exact (needs_dtor_frees_wrappers Demo.a_set_someone Hok Hkind).
Defined.
